(** * Key-retrieval code tasks: the task builders and the job argument lists

    A shallow embedding of [krc.py], [krfix.py] and of the argument-list
    construction of [generate_data.py].

    - Python [str] is [string]; Python [int] is [Z]; the used-value registry
      [self.used_values : set[str]] is a [gset string].
    - [random.Random] is an abstract randomness source with one primitive,
      [randbelow], on which CPython builds both [choice] and [randint].
    - A method of [TaskBuilder] is a function from the instance state (the
      randomness source and the registry) to an outcome: a returned value, a
      raised exception, or running out of fuel in one of the two unbounded
      [while True] loops. The configuration [self.cfg] is never assigned after
      construction and is passed as a plain argument. *)

From Stdlib Require Import ZArith String Ascii List Lia.
From stdpp Require Import base decidable option list gmap sets strings pretty.

Local Open Scope Z_scope.
Local Set Warnings "-clear-no-such-hyp".

#[local] Arguments String.append !_ _ / : simpl nomatch.

(** ** Strings *)

(** The double quote and the newline, built from their codes. *)
Definition dquote : ascii := ascii_of_nat 34.
Definition newline : ascii := ascii_of_nat 10.
Definition underscore : ascii := ascii_of_nat 95.

Definition DQ : string := String dquote EmptyString.
Definition NL : string := String newline EmptyString.

(** [s[1:-1]] *)
Definition slice_1_m1 (s : string) : string :=
  String.substring 1 (String.length s - 2) s.

(** ["sep".join(parts)] *)
Fixpoint join (sep : string) (parts : list string) : string :=
  match parts with
  | [] => EmptyString
  | [p] => p
  | p :: rest => p +:+ sep +:+ join sep rest
  end.

(** [needle in hay] on two [str] *)
Fixpoint str_in (needle hay : string) : bool :=
  match hay with
  | EmptyString => String.prefix needle EmptyString
  | String _ hay' => String.prefix needle hay || str_in needle hay'
  end.

(** [str(i)] for an [int] *)
Definition str_int (i : Z) : string := pretty i.

Definition lowercase_letters : string := "abcdefghijklmnopqrstuvwxyz".
Definition digits : string := "0123456789".
Definition nonzero_digits : string := "123456789".

(** Every character of [s] satisfies [P]. *)
Fixpoint all_chars (P : ascii → bool) (s : string) : bool :=
  match s with
  | EmptyString => true
  | String c s' => P c && all_chars P s'
  end.

Definition is_lower (c : ascii) : bool :=
  (97 <=? nat_of_ascii c)%nat && (nat_of_ascii c <=? 122)%nat.
Definition is_digit (c : ascii) : bool :=
  (48 <=? nat_of_ascii c)%nat && (nat_of_ascii c <=? 57)%nat.
Definition is_nonzero_digit (c : ascii) : bool :=
  (49 <=? nat_of_ascii c)%nat && (nat_of_ascii c <=? 57)%nat.
Definition is_alnum (c : ascii) : bool := is_lower c || is_digit c.
Definition is_name_char (c : ascii) : bool :=
  is_alnum c || bool_decide (c = underscore).

(** ** The randomness source *)

(** [random.Random._randbelow(n)] returns an integer in [0, n) and advances
    the generator; [choice] and [randint] are both written with it. *)
Class RandomSource (G : Type) := {
  randbelow : G → nat → nat * G;
  randbelow_lt : ∀ g n, (0 < n)%nat → ((randbelow g n).1 < n)%nat
}.

(** A concrete source used to run the builders: a linear congruential
    generator on [N], reduced modulo the bound. *)
Definition lcg_next (g : N) : N := ((g * 1103515245 + 12345) mod 2147483648)%N.

Definition lcg_randbelow (g : N) (n : nat) : nat * N :=
  (N.to_nat ((lcg_next g / 65536) mod N.of_nat n), lcg_next g).

#[global, refine] Instance lcg_source : RandomSource N :=
  {| randbelow := lcg_randbelow |}.
Proof.
  intros g n Hn. cbn.
  pose proof (N.mod_upper_bound (lcg_next g / 65536) (N.of_nat n)). lia.
Defined.

(** ** Configuration, instance state, outcomes *)

Record configuration := {
  cfg_return_type : string;
  cfg_return_length : Z;
  cfg_function_name : string;
  cfg_function_name_min_parts : Z;
  cfg_function_name_max_parts : Z;
  cfg_function_name_part_length : Z;
  cfg_call_graph_comment_type : string;
  cfg_call_graph_template_variant : string
}.

Inductive exception :=
| ValueError (msg : string)
| AssertionError (msg : string).

Section Builder.
Context {G : Type} `{RandomSource G}.

(** The mutable part of a [TaskBuilder]: [self.rng] and [self.used_values]. *)
Record instance := {
  rng : G;
  used_values : gset string
}.

(** [TaskBuilder(configuration, random_number_generator)] *)
Definition new_instance (g : G) : instance :=
  {| rng := g; used_values := ∅ |}.

Inductive outcome (A : Type) :=
| Return (a : A) (self : instance)
| Raise (e : exception) (self : instance)
| OutOfFuel.
#[global] Arguments Return {A} a self.
#[global] Arguments Raise {A} e self.
#[global] Arguments OutOfFuel {A}.

Definition returned_value {A} (o : outcome A) : option A :=
  match o with
  | Return a _ => Some a
  | _ => None
  end.

Definition M (A : Type) : Type := instance → outcome A.

Definition ret {A} (a : A) : M A := λ self, Return a self.
Definition raise {A} (e : exception) : M A := λ self, Raise e self.
Definition bind {A B} (m : M A) (k : A → M B) : M B := λ self,
  match m self with
  | Return a self' => k a self'
  | Raise e self' => Raise e self'
  | OutOfFuel => OutOfFuel
  end.

(** A draw that only touches [self.rng]. *)
Definition draw {A} (f : G → A * G) : M A := λ self,
  let '(a, g) := f (rng self) in
  Return a {| rng := g; used_values := used_values self |}.

End Builder.

#[global] Arguments instance G : clear implicits.
#[global] Arguments outcome G A : clear implicits.
#[global] Arguments M G A : clear implicits.

Notation "'let*' x ':=' m 'in' k" := (bind m (λ x, k))
  (at level 10, x pattern, m at level 100, k at level 200, only parsing).

(** ** The identifier and value synthesizer (shared by [krc.py] and [krfix.py]) *)

Section Synthesizer.
Context {G : Type} `{RandomSource G}.

(** [self.rng.choice(seq)] on a string: [seq[_randbelow(len(seq))]]. The
    index is in range by [randbelow_lt], so the fallback character is never
    produced for a non-empty [seq]. *)
Definition choice_char (seq : string) (g : G) : ascii * G :=
  let '(i, g') := randbelow g (String.length seq) in
  (default underscore (String.get i seq), g').

(** [self.rng.randint(a, b)] is [randrange(a, b + 1)]: it raises
    [ValueError] on an empty range, before drawing. *)
Definition randint (a b : Z) : M G Z := λ self,
  let width := b + 1 - a in
  if 0 <? width then
    draw (λ g, let '(k, g') := randbelow g (Z.to_nat width) in (a + Z.of_nat k, g')) self
  else Raise (ValueError "empty range for randrange()") self.

(** [random_string]: the loop [while len(r) < length: r += choice(...)]
    appends one character per iteration, so it runs [max(0, length)] times. *)
Fixpoint random_string_loop (n : nat) (r : string) (g : G) : string * G :=
  match n with
  | O => (r, g)
  | S n' =>
      let '(c, g') := choice_char lowercase_letters g in
      random_string_loop n' (r +:+ String c EmptyString) g'
  end.

Definition random_string (length : Z) (g : G) : string * G :=
  random_string_loop (Z.to_nat length) EmptyString g.

(** [random_integer]: as above, with the alphabet chosen by [r != ""]. *)
Fixpoint random_integer_loop (n : nat) (r : string) (g : G) : string * G :=
  match n with
  | O => (r, g)
  | S n' =>
      let alphabet :=
        if decide (r ≠ EmptyString) then digits else nonzero_digits in
      let '(c, g') := choice_char alphabet g in
      random_integer_loop n' (r +:+ String c EmptyString) g'
  end.

Definition random_integer (length : Z) (g : G) : string * G :=
  random_integer_loop (Z.to_nat length) EmptyString g.

(** [uniquify(generator, **kwargs)]: the [while True] loop, one iteration
    per unit of fuel. *)
Fixpoint uniquify (fuel : nat) (generator : G → string * G) (self : instance G)
  : outcome G string :=
  match fuel with
  | O => OutOfFuel
  | S fuel' =>
      let '(v, g') := generator (rng self) in
      if decide (v ∈ used_values self) then
        uniquify fuel' generator {| rng := g'; used_values := used_values self |}
      else
        Return v {| rng := g'; used_values := {[v]} ∪ used_values self |}
  end.

(** [value(length=None)] *)
Definition value (cfg : configuration) (fuel : nat) (length : option Z)
  : M G string :=
  let length := default (cfg_return_length cfg) length in
  if decide (cfg_return_type cfg = "string") then
    let* s := uniquify fuel (random_string length) in
    ret (DQ +:+ s +:+ DQ)
  else if decide (cfg_return_type cfg = "integer") then
    uniquify fuel (random_integer length)
  else raise (ValueError "return_type must be 'string' or 'integer'").

(** The generator picked for part [i] of a random name. *)
Definition part_generator (i : nat) : M G (Z → G → string * G) :=
  match i with
  | O => ret random_string
  | S O => ret random_integer
  | _ =>
      draw (λ g, let '(k, g') := randbelow g 2 in
                 ((match k with O => random_integer | _ => random_string end), g'))
  end.

(** The body of [for i in range(n_parts)], from index [i] on, with [count]
    iterations left. *)
Fixpoint name_parts (fuel : nat) (length : Z) (count i : nat)
    (parts : list string) : M G (list string) :=
  match count with
  | O => ret parts
  | S count' =>
      let* fn := part_generator i in
      let* p := uniquify fuel (fn length) in
      name_parts fuel length count' (S i) (parts ++ [p])
  end.

(** The candidate tried at [index] by the fixed scheme. *)
Definition candidate (canonical : string) (index : Z) : string :=
  if decide (index = 0) then canonical
  else canonical +:+ "_" +:+ str_int index.

(** The fixed scheme's [while True] loop. *)
Fixpoint fixed_name (fuel : nat) (canonical : string) (index : Z)
    (self : instance G) : outcome G string :=
  match fuel with
  | O => OutOfFuel
  | S fuel' =>
      let c := candidate canonical index in
      if decide (c ∈ used_values self) then
        fixed_name fuel' canonical (index + 1) self
      else
        Return c {| rng := rng self; used_values := {[c]} ∪ used_values self |}
  end.

(** The random scheme up to the list [parts], before it is joined. *)
Definition random_name_parts (cfg : configuration) (fuel : nat)
  : M G (list string) :=
  let* n_parts := randint (cfg_function_name_min_parts cfg)
                          (cfg_function_name_max_parts cfg) in
  name_parts fuel (cfg_function_name_part_length cfg) (Z.to_nat n_parts) 0 [].

(** [function_name(canonical)] *)
Definition function_name (cfg : configuration) (fuel : nat) (canonical : string)
  : M G string :=
  if decide (cfg_function_name cfg = "random") then
    let* parts := random_name_parts cfg fuel in
    ret (join "_" parts)
  else if decide (cfg_function_name cfg = "fixed") then
    fixed_name fuel canonical 0
  else raise (ValueError "function_name must be 'fixed' or 'random'").

End Synthesizer.

(** A Task Result: the context segments, the prompt and the expected output. *)
Definition task_result : Type := list string * string * string.

(** [f"def {name}():\n    return {body}"] *)
Definition def_return (name body : string) : string :=
  "def " +:+ name +:+ "():" +:+ NL +:+ "    return " +:+ body.

(** [f"assert {func_key}() =="] *)
Definition assert_prompt (func_key : string) : string :=
  "assert " +:+ func_key +:+ "() ==".

(** ** [krc.py] *)

Module Krc.
Section Shapes.
Context {G : Type} `{RandomSource G}.
Context (cfg : configuration) (fuel : nat).

Definition one_step : M G task_result :=
  let* return_value := value cfg fuel None in
  let* func_key := function_name cfg fuel "key_function" in
  ret ([def_return func_key return_value],
       assert_prompt func_key,
       " " +:+ return_value).

Definition two_step : M G task_result :=
  let* return_value := value cfg fuel None in
  let* func_key := function_name cfg fuel "key_function" in
  let* func_val := function_name cfg fuel "value_function" in
  ret ([def_return func_val return_value;
        def_return func_key (func_val +:+ "()")],
       assert_prompt func_key,
       " " +:+ return_value).

Definition three_step : M G task_result :=
  let* return_value := value cfg fuel None in
  let* func_key := function_name cfg fuel "key_function" in
  let* func_val_1 := function_name cfg fuel "value_function_1" in
  let* func_val_2 := function_name cfg fuel "value_function_2" in
  ret ([def_return func_val_1 return_value;
        def_return func_val_2 (func_val_1 +:+ "()");
        def_return func_key (func_val_2 +:+ "()")],
       assert_prompt func_key,
       " " +:+ return_value).

Definition concatenation : M G task_result :=
  if decide (cfg_return_type cfg = "string") then
    let* return_value_1 := value cfg fuel (Some (cfg_return_length cfg / 2)) in
    let* return_value_2 := value cfg fuel (Some (cfg_return_length cfg / 2)) in
    let* func_key := function_name cfg fuel "key_function" in
    let* func_val_1 := function_name cfg fuel "value_function_1" in
    let* func_val_2 := function_name cfg fuel "value_function_2" in
    ret ([def_return func_val_1 return_value_1;
          def_return func_val_2 return_value_2;
          def_return func_key (func_val_1 +:+ "() + " +:+ func_val_2 +:+ "()")],
         assert_prompt func_key,
         " " +:+ DQ +:+ (slice_1_m1 return_value_1 +:+ slice_1_m1 return_value_2) +:+ DQ)
  else raise (AssertionError "concatenation task only supports strings").

Definition build (variant : string) : M G task_result :=
  if decide (variant = "one-step") then one_step
  else if decide (variant = "two-step") then two_step
  else if decide (variant = "three-step") then three_step
  else if decide (variant = "concatenation") then concatenation
  else raise (ValueError "variant is invalid").

End Shapes.
End Krc.

(** ** [krfix.py] *)

Module Krfix.
Section Shapes.
Context {G : Type} `{RandomSource G}.
Context (cfg : configuration) (fuel : nat).

Definition call_graph_comment (direction : string) (func_names : list string)
  : M G string :=
  let template_variant := cfg_call_graph_template_variant cfg in
  if decide (template_variant = "calls_called_by") then
    if decide (direction = "calls") then
      ret ("# This function calls " +:+ join " and " func_names +:+ NL)
    else if decide (direction = "called_by") then
      ret ("# This function is called by " +:+ join " and " func_names +:+ NL)
    else raise (ValueError ("Unknown direction=" +:+ direction))
  else if decide (template_variant = "function_names_only") then
    ret ("# " +:+ join ", " func_names +:+ NL)
  else raise (ValueError ("unknown template_variant " +:+ template_variant)).

Definition three_step : M G task_result :=
  let* return_value := value cfg fuel None in
  let* func_key := function_name cfg fuel "key_function" in
  let* func_val_1 := function_name cfg fuel "value_function_1" in
  let* func_val_2 := function_name cfg fuel "value_function_2" in
  let func_1_decl := def_return func_val_1 return_value in
  let func_2_decl := def_return func_val_2 (func_val_1 +:+ "()") in
  let func_key_decl := def_return func_key (func_val_2 +:+ "()") in
  let* (func_1_decl, func_2_decl) :=
    if str_in "called_by" (cfg_call_graph_comment_type cfg) then
      let* called_by_comment := call_graph_comment "called_by" [func_val_2; func_key] in
      let func_1_decl := called_by_comment +:+ func_1_decl in
      let* called_by_comment := call_graph_comment "called_by" [func_key] in
      let func_2_decl := called_by_comment +:+ func_2_decl in
      ret (func_1_decl, func_2_decl)
    else ret (func_1_decl, func_2_decl) in
  let* (func_key_decl, func_2_decl) :=
    if str_in "calls" (cfg_call_graph_comment_type cfg) then
      let* calls_comment := call_graph_comment "calls" [func_val_2; func_val_1] in
      let func_key_decl := calls_comment +:+ func_key_decl in
      let* calls_comment := call_graph_comment "calls" [func_val_1] in
      let func_2_decl := calls_comment +:+ func_2_decl in
      ret (func_key_decl, func_2_decl)
    else ret (func_key_decl, func_2_decl) in
  ret ([func_1_decl; func_2_decl; func_key_decl],
       assert_prompt func_key,
       " " +:+ return_value).

Definition concatenation : M G task_result :=
  if decide (cfg_return_type cfg = "string") then
    let* return_value_1 := value cfg fuel (Some (cfg_return_length cfg / 2)) in
    let* return_value_2 := value cfg fuel (Some (cfg_return_length cfg / 2)) in
    let* func_key := function_name cfg fuel "key_function" in
    let* func_val_1 := function_name cfg fuel "value_function_1" in
    let* func_val_2 := function_name cfg fuel "value_function_2" in
    let func_1_decl := def_return func_val_1 return_value_1 in
    let func_2_decl := def_return func_val_2 return_value_2 in
    let func_key_decl :=
      def_return func_key (func_val_1 +:+ "() + " +:+ func_val_2 +:+ "()") in
    let* (func_1_decl, func_2_decl) :=
      if str_in "called_by" (cfg_call_graph_comment_type cfg) then
        let* called_by_comment := call_graph_comment "called_by" [func_key] in
        ret (called_by_comment +:+ func_1_decl, called_by_comment +:+ func_2_decl)
      else ret (func_1_decl, func_2_decl) in
    let* func_key_decl :=
      if str_in "calls" (cfg_call_graph_comment_type cfg) then
        let* calls_comment := call_graph_comment "calls" [func_val_1; func_val_2] in
        ret (calls_comment +:+ func_key_decl)
      else ret func_key_decl in
    ret ([func_1_decl; func_2_decl; func_key_decl],
         assert_prompt func_key,
         " " +:+ DQ +:+ (slice_1_m1 return_value_1 +:+ slice_1_m1 return_value_2) +:+ DQ)
  else raise (AssertionError "concatenation task only supports strings").

Definition build (variant : string) : M G task_result :=
  if decide (variant = "three-step") then three_step
  else if decide (variant = "concatenation") then concatenation
  else raise (ValueError "variant is invalid").

End Shapes.
End Krfix.

(** ** Sequences of calls on one instance *)

Inductive generator_name := RandomString | RandomInteger.

(** The calls a client makes on one [TaskBuilder]: [value(length)],
    [function_name(canonical)] and [uniquify(generator, length=...)] with
    one of the two generators of the class. *)
Inductive call :=
| CallValue (length : option Z)
| CallFunctionName (canonical : string)
| CallUniquify (generator : generator_name) (length : Z).

Section Calls.
Context {G : Type} `{RandomSource G}.
Context (cfg : configuration) (fuel : nat).

Definition generator_of (n : generator_name) : Z → G → string * G :=
  match n with
  | RandomString => random_string
  | RandomInteger => random_integer
  end.

Definition do_call (c : call) : M G string :=
  match c with
  | CallValue length => value cfg fuel length
  | CallFunctionName canonical => function_name cfg fuel canonical
  | CallUniquify n length => uniquify fuel (generator_of n length)
  end.

(** The strings returned by a sequence of calls, in order, and the instance
    afterwards. A raised exception leaves the instance as the failed call
    left it and the client goes on; a call that never returns ends the
    sequence. *)
Fixpoint returned (calls : list call) (self : instance G)
  : list string * option (instance G) :=
  match calls with
  | [] => ([], Some self)
  | c :: calls' =>
      match do_call c self with
      | Return v self' =>
          let '(vs, final) := returned calls' self' in (v :: vs, final)
      | Raise _ self' => returned calls' self'
      | OutOfFuel => ([], None)
      end
  end.

(** What a call obtains from [uniquify] or registers itself: the inner text
    of a string value, the integer value, the parts of a random name, the
    fixed name. *)
Definition registered_by (c : call) : M G (list string) :=
  match c with
  | CallValue length =>
      let* v := value cfg fuel length in
      ret [if decide (cfg_return_type cfg = "string") then slice_1_m1 v else v]
  | CallFunctionName canonical =>
      if decide (cfg_function_name cfg = "random") then random_name_parts cfg fuel
      else let* name := function_name cfg fuel canonical in ret [name]
  | CallUniquify n length =>
      let* v := uniquify fuel (generator_of n length) in ret [v]
  end.

Fixpoint registered (calls : list call) (self : instance G)
  : list string * option (instance G) :=
  match calls with
  | [] => ([], Some self)
  | c :: calls' =>
      match registered_by c self with
      | Return ts self' =>
          let '(rest, final) := registered calls' self' in (ts ++ rest, final)
      | Raise _ self' => registered calls' self'
      | OutOfFuel => ([], None)
      end
  end.

(** A canonical function name is not a quoted literal. *)
Definition plain_name (canonical : string) : bool :=
  negb (String.prefix DQ canonical).

Definition plain_call (c : call) : bool :=
  match c with
  | CallFunctionName canonical => plain_name canonical
  | _ => true
  end.

(** Repeated [build(variant)] calls on one instance. *)
Fixpoint builds (build : string → M G task_result) (variants : list string)
  : M G (list task_result) :=
  match variants with
  | [] => ret []
  | v :: variants' =>
      let* r := build v in
      let* rs := builds build variants' in
      ret (r :: rs)
  end.

End Calls.

(** ** [generate_data.py]: job specifications and their argument lists *)

Module GenerateData.

(** The values stored in a configuration dictionary. *)
Inductive pyval :=
| PNone
| PInt (i : Z)
| PStr (s : string).

#[global] Instance pyval_eq_dec : EqDecision pyval.
Proof. solve_decision. Defined.

(** [str(value)] *)
Definition str (v : pyval) : string :=
  match v with
  | PNone => "None"
  | PInt i => str_int i
  | PStr s => s
  end.

(** A dictionary literal, in insertion order. *)
Definition dict : Type := list (string * pyval).

(** A job specification: the experiment name and its configuration. *)
Definition job : Type := string * dict.

Fixpoint get (d : dict) (key : string) : option pyval :=
  match d with
  | [] => None
  | (k, v) :: d' => if decide (k = key) then Some v else get d' key
  end.

(** [s.split(sep)] for a one-character separator. *)
Fixpoint split_from (sep : ascii) (cur s : string) : list string :=
  match s with
  | EmptyString => [cur]
  | String c s' =>
      if decide (c = sep) then cur :: split_from sep EmptyString s'
      else split_from sep (cur +:+ String c EmptyString) s'
  end.

Definition split (sep : ascii) (s : string) : list string :=
  split_from sep EmptyString s.

Definition slash : ascii := ascii_of_nat 47.

(** [model.split("/")[-1]] *)
Definition short_name (model : string) : string :=
  List.last (split slash model) EmptyString.

Fixpoint drop_while (P : ascii → bool) (l : list ascii) : list ascii :=
  match l with
  | [] => []
  | c :: l' => if P c then drop_while P l' else l
  end.

(** [posixpath.dirname]: the head up to the last slash, with its trailing
    slashes stripped unless it consists of slashes only. *)
Definition dirname (p : string) : string :=
  let chars := list_ascii_of_string p in
  let head := rev (drop_while (λ c, bool_decide (c ≠ slash)) (rev chars)) in
  if forallb (λ c, bool_decide (c = slash)) head then string_of_list_ascii head
  else string_of_list_ascii
         (rev (drop_while (λ c, bool_decide (c = slash)) (rev head))).

Definition models : list string :=
  ["mistralai/Mistral-7B-v0.1"; "bigcode/starcoderbase";
   "bigcode/starcoderbase-1b"; "bigcode/starcoderbase-7b";
   "bigcode/starcoder2-7b"].

Definition humaneval_max_length (max_prompt_tokens : Z) : Z :=
  if 4000 <=? max_prompt_tokens then 1000 else 500.

(** [d.get(key)]: [None] for a missing key. *)
Definition dict_get (d : dict) (key : string) : pyval :=
  default PNone (get d key).

(** [generate_krc(max_prompt_tokens)], as the list of the jobs it yields. The
    subscript [num_key_functions_dict[variant]] finds every variant of the
    product in the table. *)
Definition generate_krc (max_prompt_tokens : Z) : list job :=
  let variants := ["one-step"; "two-step"; "three-step"; "concatenation"] in
  let distractors := [0; 1; 5] in
  let seeds := [100] in
  let num_key_functions_dict : dict :=
    [("one-step", PInt 100); ("two-step", PInt 20);
     ("three-step", PInt 20); ("concatenation", PInt 20)] in
  let max_pos_combs_dict : dict :=
    [("one-step", PNone); ("two-step", PInt 150);
     ("three-step", PInt 50); ("concatenation", PInt 50)] in
  model ← models; variant ← variants; distractors ← distractors; seed ← seeds;
  let mname := short_name model in
  [("krc",
    [("model_name", PStr model);
     ("variant", PStr variant);
     ("return_type", PStr "string");
     ("return_length", PInt 10);
     ("function_name", PStr "random");
     ("num_key_functions", dict_get num_key_functions_dict variant);
     ("max_position_combinations", dict_get max_pos_combs_dict variant);
     ("humaneval_max_length", PInt (humaneval_max_length max_prompt_tokens));
     ("max_prompt_tokens", PInt max_prompt_tokens);
     ("max_humaneval_snippets", PInt 1000000);
     ("num_distractors", PInt distractors);
     ("seed", PInt seed);
     ("output", PStr ("./data/krc/krc_" +:+ str_int max_prompt_tokens +:+ "_"
                      +:+ variant +:+ "_" +:+ mname +:+ "_"
                      +:+ str_int distractors +:+ "_distractors_seed"
                      +:+ str_int seed +:+ ".json.gz"))])].

Definition krfix_job (family : string) (extra : dict)
    (num_key_functions_dict max_pos_combs_dict : dict) (max_prompt_tokens : Z)
    (model variant : string) (distractors : Z)
    (call_graph_comment_type call_graph_template_variant : string) (seed : Z)
  : job :=
  let mname := short_name model in
  (family,
   [("model_name", PStr model);
    ("variant", PStr variant);
    ("return_type", PStr "string");
    ("return_length", PInt 10);
    ("function_name", PStr "random");
    ("num_key_functions", dict_get num_key_functions_dict variant);
    ("max_position_combinations", dict_get max_pos_combs_dict variant);
    ("humaneval_max_length", PInt (humaneval_max_length max_prompt_tokens));
    ("max_prompt_tokens", PInt max_prompt_tokens);
    ("max_humaneval_snippets", PInt 1000000);
    ("num_distractors", PInt distractors);
    ("call_graph_comment_type", PStr call_graph_comment_type);
    ("call_graph_template_variant", PStr call_graph_template_variant)]
   ++ extra ++
   [("seed", PInt seed);
    ("output", PStr ("./data/" +:+ family +:+ "/" +:+ family +:+ "_"
                     +:+ str_int max_prompt_tokens +:+ "_"
                     +:+ variant +:+ "_" +:+ mname +:+ "_"
                     +:+ str_int distractors +:+ "_distractors_"
                     +:+ call_graph_comment_type +:+ "_"
                     +:+ call_graph_template_variant +:+ "_seed"
                     +:+ str_int seed +:+ ".json.gz"))]).

(** [generate_krfix(max_prompt_tokens)] *)
Definition generate_krfix (max_prompt_tokens : Z) : list job :=
  let variants := ["three-step"; "concatenation"] in
  let distractors := [5] in
  let call_graph_comment_types := ["calls"; "called_by"; "calls,called_by"] in
  let call_graph_template_variants := ["calls_called_by"; "function_names_only"] in
  let seeds := [100; 348] in
  let num_key_functions_dict : dict :=
    [("three-step", PInt 5); ("concatenation", PInt 5)] in
  let max_pos_combs_dict : dict :=
    [("three-step", PInt 15); ("concatenation", PInt 15)] in
  model ← models; variant ← variants; distractors ← distractors;
  call_graph_comment_type ← call_graph_comment_types;
  call_graph_template_variant ← call_graph_template_variants;
  seed ← seeds;
  [krfix_job "krfix" [] num_key_functions_dict max_pos_combs_dict
     max_prompt_tokens model variant distractors
     call_graph_comment_type call_graph_template_variant seed].

(** [generate_krfix_one_hop(max_prompt_tokens)] *)
Definition generate_krfix_one_hop (max_prompt_tokens : Z) : list job :=
  let variants := ["three-step"] in
  let distractors := [5] in
  let call_graph_comment_types :=
    ["calls_one_hop"; "called_by_one_hop"; "calls_one_hop,called_by_one_hop"] in
  let call_graph_template_variants := ["calls_called_by"; "function_names_only"] in
  let seeds := [100; 348] in
  let num_key_functions_dict : dict := [("three-step", PInt 5)] in
  let max_pos_combs_dict : dict := [("three-step", PInt 15)] in
  model ← models; variant ← variants; distractors ← distractors;
  call_graph_comment_type ← call_graph_comment_types;
  call_graph_template_variant ← call_graph_template_variants;
  seed ← seeds;
  [krfix_job "krfix_one_hop" [("call_graph_comment_position", PStr "before")]
     num_key_functions_dict max_pos_combs_dict
     max_prompt_tokens model variant distractors
     call_graph_comment_type call_graph_template_variant seed].

Inductive os_error :=
| KeyError (key : string)
| TypeError
| FileNotFoundError.

(** The inner loop of [tasks]: [args] grows by a flag and a value for each
    item whose value is not [None]. *)
Fixpoint add_items (items : dict) (args : list string) : list string :=
  match items with
  | [] => args
  | (key, value) :: items' =>
      match value with
      | PNone => add_items items' args
      | _ => add_items items' (args ++ ["--" +:+ key; str value])
      end
  end.

(** [os.makedirs(os.path.dirname(config["output"]), exist_ok=True)]: the
    directory asked for, or the exception of the subscript, of [dirname] on
    a value that is not a string, or of [makedirs] on the empty path. *)
Definition output_directory (config : dict) : os_error + string :=
  match get config "output" with
  | None => inl (KeyError "output")
  | Some (PStr path) =>
      if decide (dirname path = EmptyString) then inl FileNotFoundError
      else inr (dirname path)
  | Some _ => inl TypeError
  end.

(** The outer loop of [tasks], from the accumulated [result] and the
    directories made so far. *)
Fixpoint tasks_from (configs : list job) (result : list (list string))
    (made : list string) : os_error + list (list string) * list string :=
  match configs with
  | [] => inr (result, made)
  | (experiment, config) :: configs' =>
      let args := add_items config [experiment] in
      match output_directory config with
      | inl e => inl e
      | inr dir => tasks_from configs' (result ++ [args]) (made ++ [dir])
      end
  end.

(** [tasks(configs)]: the argument lists, and the directories it made. *)
Definition tasks (configs : list job) : os_error + list (list string) * list string :=
  tasks_from configs [] [].

(** The job lists of the three commands [krc], [krfix] and [krfix_one_hop]. *)
Definition krc_jobs : list job :=
  generate_krc 2000 ++ generate_krc 4000 ++ generate_krc 8000.
Definition krfix_jobs : list job :=
  generate_krfix 2000 ++ generate_krfix 4000 ++ generate_krfix 8000.
Definition krfix_one_hop_jobs : list job :=
  generate_krfix_one_hop 2000 ++ generate_krfix_one_hop 4000
  ++ generate_krfix_one_hop 8000.

(** The argument list in the words of the specification: the task kind,
    then a flag and the stringified value for every field that is not null,
    in key order. *)
Definition item_arguments (kv : string * pyval) : list string :=
  match kv.2 with
  | PNone => []
  | v => ["--" +:+ kv.1; str v]
  end.

Definition spec_arguments (j : job) : list string :=
  j.1 :: concat (map item_arguments j.2).

(** The argument lists [tasks] returns, when it returns. *)
Definition arguments_of (configs : list job) : option (list (list string)) :=
  match tasks configs with
  | inr (result, _) => Some result
  | inl _ => None
  end.

(** The jobs of the one-step variant. *)
Definition is_one_step (j : job) : bool :=
  bool_decide (get j.2 "variant" = Some (PStr "one-step")).

End GenerateData.


(** ** Vocabulary of the statements *)

(** The first character of a string. *)
Definition first_char (s : string) : option ascii :=
  match s with
  | EmptyString => None
  | String c _ => Some c
  end.

(** The part of a string before its first underscore. *)
Fixpoint before_underscore (s : string) : string :=
  match s with
  | EmptyString => EmptyString
  | String c s' =>
      if decide (c = underscore) then EmptyString
      else String c (before_underscore s')
  end.

(** The registry entry that stands for a returned string: the inner text of
    a quoted value, the first part of a random name, the string itself
    otherwise. *)
Definition registry_key (cfg : configuration) (o : string) : string :=
  if bool_decide (cfg_return_type cfg = "string") && String.prefix DQ o
  then slice_1_m1 o
  else if decide (cfg_function_name cfg = "random") then before_underscore o
  else o.

(** No entry of the registry begins with a double quote. *)
Definition unquoted (used : gset string) : Prop :=
  ∀ x, x ∈ used → String.prefix DQ x = false.

(** The lines of a segment: [s.split("\n")]. *)
Definition lines (s : string) : list string := GenerateData.split newline s.

Definition no_newline (c : ascii) : bool := bool_decide (c ≠ newline).

(** A string of [length] digits that does not start with a zero. *)
Definition integer_literal (length : Z) (s : string) : Prop :=
  String.length s = Z.to_nat length
  ∧ all_chars is_digit s = true
  ∧ ∃ c t, s = String c t ∧ is_nonzero_digit c = true.

(** A string of [length] lowercase letters. *)
Definition lowercase_word (length : Z) (s : string) : Prop :=
  String.length s = Z.to_nat length ∧ all_chars is_lower s = true.

Section OutcomePredicates.
Context {G : Type} `{RandomSource G}.

(** [ensures m self Q R]: if [m] returns from [self], the value and the
    instance satisfy [Q]; if it raises, the instance satisfies [R]. *)
Definition ensures {A} (m : M G A) (self : instance G)
    (Q : A → instance G → Prop) (R : instance G → Prop) : Prop :=
  match m self with
  | Return a self' => Q a self'
  | Raise _ self' => R self'
  | OutOfFuel => True
  end.

(** Fuel only decides whether a run gets to its end: a run that ends with
    some fuel ends the same way with more. *)
Definition stable {A} (m : nat → M G A) : Prop :=
  ∀ fuel fuel' self, (fuel ≤ fuel')%nat →
    m fuel self ≠ OutOfFuel → m fuel' self = m fuel self.

(** The registry only grows, whatever the call and however it ends. *)
Definition grows {A} (m : M G A) : Prop :=
  ∀ self, ensures m self
            (λ _ self', used_values self ⊆ used_values self')
            (λ self', used_values self ⊆ used_values self').

(** [I] is an invariant of the registry under [m]. *)
Definition preserves {A} (I : gset string → Prop) (m : M G A) : Prop :=
  ∀ self, I (used_values self) →
    ensures m self (λ _ self', I (used_values self'))
                   (λ self', I (used_values self')).

End OutcomePredicates.

(** The configuration [cfg] with another [call_graph_comment_type]. *)
Definition with_comment_type (t : string) (cfg : configuration) : configuration :=
  {| cfg_return_type := cfg_return_type cfg;
     cfg_return_length := cfg_return_length cfg;
     cfg_function_name := cfg_function_name cfg;
     cfg_function_name_min_parts := cfg_function_name_min_parts cfg;
     cfg_function_name_max_parts := cfg_function_name_max_parts cfg;
     cfg_function_name_part_length := cfg_function_name_part_length cfg;
     cfg_call_graph_comment_type := t;
     cfg_call_graph_template_variant := cfg_call_graph_template_variant cfg |}.

(** The comment types of [generate_krfix_one_hop], each with the comment
    type of [generate_krfix] it is compared to. *)
Definition one_hop_comment_types : list (string * string) :=
  [("calls_one_hop", "calls");
   ("called_by_one_hop", "called_by");
   ("calls_one_hop,called_by_one_hop", "calls,called_by")].

(** ** Vocabulary of the further properties *)

Section Draws.
Context {G : Type} `{RandomSource G}.

(** The randomness source after [k] runs of [generator]. *)
Fixpoint after_draws (generator : G → string * G) (k : nat) (g : G) : G :=
  match k with
  | O => g
  | S k' => after_draws generator k' (generator g).2
  end.

End Draws.

(** A declaration with comment lines before it. *)
Definition with_comments (texts : list string) (declaration : string) : string :=
  fold_right (λ text rest, "# " +:+ text +:+ NL +:+ rest) declaration texts.

(** [segment] is [declaration] after at most two comment lines. *)
Definition commented (segment declaration : string) : Prop :=
  ∃ texts, (length texts ≤ 2)%nat ∧ segment = with_comments texts declaration.

(** Configurations with an error. *)
Definition cfg_short : configuration :=
  {| cfg_return_type := "string"; cfg_return_length := 1;
     cfg_function_name := "fixed";
     cfg_function_name_min_parts := 1; cfg_function_name_max_parts := 3;
     cfg_function_name_part_length := 4;
     cfg_call_graph_comment_type := "calls";
     cfg_call_graph_template_variant := "calls_called_by" |}.

Definition cfg_empty_parts : configuration :=
  {| cfg_return_type := "string"; cfg_return_length := 10;
     cfg_function_name := "random";
     cfg_function_name_min_parts := 2; cfg_function_name_max_parts := 3;
     cfg_function_name_part_length := 0;
     cfg_call_graph_comment_type := "calls";
     cfg_call_graph_template_variant := "calls_called_by" |}.

Definition cfg_bad_type : configuration :=
  {| cfg_return_type := "float"; cfg_return_length := 10;
     cfg_function_name := "fixed";
     cfg_function_name_min_parts := 1; cfg_function_name_max_parts := 3;
     cfg_function_name_part_length := 4;
     cfg_call_graph_comment_type := "calls";
     cfg_call_graph_template_variant := "calls_called_by" |}.

Definition cfg_bad_scheme : configuration :=
  {| cfg_return_type := "string"; cfg_return_length := 10;
     cfg_function_name := "sequential";
     cfg_function_name_min_parts := 1; cfg_function_name_max_parts := 3;
     cfg_function_name_part_length := 4;
     cfg_call_graph_comment_type := "calls";
     cfg_call_graph_template_variant := "calls_called_by" |}.

Definition cfg_bad_template : configuration :=
  {| cfg_return_type := "string"; cfg_return_length := 10;
     cfg_function_name := "fixed";
     cfg_function_name_min_parts := 1; cfg_function_name_max_parts := 3;
     cfg_function_name_part_length := 4;
     cfg_call_graph_comment_type := "calls,called_by";
     cfg_call_graph_template_variant := "sentence" |}.

(** The base builder's configuration: no call-graph comments. *)
Definition cfg_no_comments : configuration :=
  {| cfg_return_type := "string"; cfg_return_length := 10;
     cfg_function_name := "random";
     cfg_function_name_min_parts := 1; cfg_function_name_max_parts := 3;
     cfg_function_name_part_length := 4;
     cfg_call_graph_comment_type := EmptyString;
     cfg_call_graph_template_variant := EmptyString |}.

Definition cfg_sentences : configuration :=
  {| cfg_return_type := "string"; cfg_return_length := 10;
     cfg_function_name := "random";
     cfg_function_name_min_parts := 1; cfg_function_name_max_parts := 3;
     cfg_function_name_part_length := 4;
     cfg_call_graph_comment_type := "called_by";
     cfg_call_graph_template_variant := "calls_called_by" |}.

(** ** Concrete configurations and instances, for running the builders *)

(** The builder configuration of the enumerated jobs: string values of
    length 10 and random names. *)
Definition cfg_random : configuration :=
  {| cfg_return_type := "string"; cfg_return_length := 10;
     cfg_function_name := "random";
     cfg_function_name_min_parts := 1; cfg_function_name_max_parts := 3;
     cfg_function_name_part_length := 4;
     cfg_call_graph_comment_type := "calls,called_by";
     cfg_call_graph_template_variant := "function_names_only" |}.

Definition cfg_fixed : configuration :=
  {| cfg_return_type := "string"; cfg_return_length := 10;
     cfg_function_name := "fixed";
     cfg_function_name_min_parts := 1; cfg_function_name_max_parts := 3;
     cfg_function_name_part_length := 4;
     cfg_call_graph_comment_type := "calls";
     cfg_call_graph_template_variant := "calls_called_by" |}.

Definition cfg_integer : configuration :=
  {| cfg_return_type := "integer"; cfg_return_length := 10;
     cfg_function_name := "random";
     cfg_function_name_min_parts := 1; cfg_function_name_max_parts := 3;
     cfg_function_name_part_length := 4;
     cfg_call_graph_comment_type := "calls";
     cfg_call_graph_template_variant := "calls_called_by" |}.

(** A one-hop configuration of [generate_krfix_one_hop]. *)
Definition cfg_one_hop : configuration :=
  {| cfg_return_type := "string"; cfg_return_length := 10;
     cfg_function_name := "random";
     cfg_function_name_min_parts := 1; cfg_function_name_max_parts := 3;
     cfg_function_name_part_length := 4;
     cfg_call_graph_comment_type := "calls_one_hop,called_by_one_hop";
     cfg_call_graph_template_variant := "calls_called_by" |}.

(** Random names of no part at all. *)
Definition cfg_no_parts : configuration :=
  {| cfg_return_type := "string"; cfg_return_length := 10;
     cfg_function_name := "random";
     cfg_function_name_min_parts := 0; cfg_function_name_max_parts := 0;
     cfg_function_name_part_length := 4;
     cfg_call_graph_comment_type := "calls";
     cfg_call_graph_template_variant := "calls_called_by" |}.

(** A fresh instance on the concrete source, seeded with 42. *)
Definition instance_42 : instance N := new_instance 42%N.

(** * Properties *)


(** ** Strings *)

Lemma append_nil_r (s : string) : s +:+ EmptyString = s.
Proof. induction s as [|c s IH]; cbn; [done | by rewrite IH]. Qed.

Lemma append_assoc (s t u : string) : (s +:+ t) +:+ u = s +:+ (t +:+ u).
Proof. induction s as [|c s IH]; cbn; [done | by rewrite IH]. Qed.

Lemma length_append (s t : string) :
  String.length (s +:+ t) = (String.length s + String.length t)%nat.
Proof. induction s as [|c s IH]; cbn; [done | by rewrite IH]. Qed.

Lemma all_chars_append P (s t : string) :
  all_chars P (s +:+ t) = all_chars P s && all_chars P t.
Proof.
  induction s as [|c s IH]; cbn; [done |].
  rewrite IH. by destruct (P c).
Qed.

Lemma all_chars_impl (P Q : ascii → bool) (s : string) :
  (∀ c, P c = true → Q c = true) → all_chars P s = true → all_chars Q s = true.
Proof.
  intros HPQ. induction s as [|c s IH]; cbn; [done |].
  intros [Hc Hs]%andb_true_iff. rewrite (HPQ _ Hc). cbn. auto.
Qed.

Lemma all_chars_get P (s : string) (i : nat) (c : ascii) :
  all_chars P s = true → String.get i s = Some c → P c = true.
Proof.
  revert i. induction s as [|d s IH]; intros i; cbn; [done |].
  intros [Hd Hs]%andb_true_iff. destruct i as [|i].
  - intros [= <-]. exact Hd.
  - eauto.
Qed.

Lemma get_is_Some (s : string) (i : nat) :
  (i < String.length s)%nat → ∃ c, String.get i s = Some c.
Proof.
  revert i. induction s as [|d s IH]; intros i; cbn; [lia |].
  destruct i as [|i]; [eauto |]. intros Hi. apply IH. lia.
Qed.

(** ** The randomness source and the two generators *)

Section SynthesizerFacts.
Context {G : Type} `{RandomSource G}.

Lemma choice_char_in P (seq : string) (g : G) :
  seq ≠ EmptyString → all_chars P seq = true →
  P (choice_char seq g).1 = true.
Proof.
  intros Hne Hall. unfold choice_char.
  pose proof (randbelow_lt g (String.length seq)) as Hlt.
  destruct (randbelow g (String.length seq)) as [i g']. cbn in *.
  destruct (get_is_Some seq i) as [c Hc].
  { apply Hlt. destruct seq; [done | cbn; lia]. }
  rewrite Hc. cbn. eapply all_chars_get; eauto.
Qed.

Lemma random_string_loop_spec (n : nat) (r : string) (g : G) :
  ∃ t, (random_string_loop n r g).1 = r +:+ t
       ∧ String.length t = n ∧ all_chars is_lower t = true.
Proof.
  revert r g. induction n as [|n IH]; intros r g; cbn.
  - exists EmptyString. by rewrite append_nil_r.
  - pose proof (choice_char_in is_lower lowercase_letters g) as Hc.
    destruct (choice_char lowercase_letters g) as [c g']. cbn in Hc.
    destruct (IH (r +:+ String c EmptyString) g') as (t & -> & Hlen & Hall).
    exists (String c t). rewrite append_assoc. cbn.
    rewrite Hlen, Hall, Hc; done.
Qed.

Lemma random_string_spec (length : Z) (g : G) :
  String.length (random_string length g).1 = Z.to_nat length
  ∧ all_chars is_lower (random_string length g).1 = true.
Proof.
  unfold random_string.
  destruct (random_string_loop_spec (Z.to_nat length) EmptyString g)
    as (t & -> & Hlen & Hall).
  done.
Qed.

Lemma random_integer_loop_digits (n : nat) (r : string) (g : G) :
  ∃ t, (random_integer_loop n r g).1 = r +:+ t
       ∧ String.length t = n ∧ all_chars is_digit t = true.
Proof.
  revert r g. induction n as [|n IH]; intros r g; cbn.
  - exists EmptyString. by rewrite append_nil_r.
  - set (alphabet := if decide (r ≠ EmptyString) then digits else nonzero_digits).
    assert (Hc : is_digit (choice_char alphabet g).1 = true).
    { apply choice_char_in; unfold alphabet; by case_decide. }
    destruct (choice_char alphabet g) as [c g']. cbn in Hc.
    destruct (IH (r +:+ String c EmptyString) g') as (t & -> & Hlen & Hall).
    exists (String c t). rewrite append_assoc. cbn.
    rewrite Hlen, Hall, Hc; done.
Qed.

Lemma random_integer_loop_first (n : nat) (g : G) :
  ∃ c t, (random_integer_loop (S n) EmptyString g).1 = String c t
         ∧ is_nonzero_digit c = true.
Proof.
  change (random_integer_loop (S n) EmptyString g)
    with (let '(c, g') := choice_char nonzero_digits g in
          random_integer_loop n (String c EmptyString) g').
  pose proof (choice_char_in is_nonzero_digit nonzero_digits g) as Hc.
  destruct (choice_char nonzero_digits g) as [c g']. cbn in Hc.
  destruct (random_integer_loop_digits n (String c EmptyString) g')
    as (t & -> & _). cbn. eauto.
Qed.

Lemma random_integer_spec (length : Z) (g : G) :
  String.length (random_integer length g).1 = Z.to_nat length
  ∧ all_chars is_digit (random_integer length g).1 = true.
Proof.
  unfold random_integer.
  destruct (random_integer_loop_digits (Z.to_nat length) EmptyString g)
    as (t & -> & Hlen & Hall).
  done.
Qed.

Lemma random_integer_first (length : Z) (g : G) :
  0 < length →
  ∃ c t, (random_integer length g).1 = String c t ∧ is_nonzero_digit c = true.
Proof.
  intros Hpos. unfold random_integer.
  destruct (Z.to_nat length) as [|n] eqn:Hn; [lia |].
  apply random_integer_loop_first.
Qed.

End SynthesizerFacts.

(** ** Reasoning about outcomes *)

Section Outcomes.
Context {G : Type} `{RandomSource G}.

Lemma ensures_ret {A} (a : A) self (Q : A → instance G → Prop) R :
  Q a self → ensures (ret a) self Q R.
Proof. done. Qed.

Lemma ensures_raise {A} e self (Q : A → instance G → Prop) (R : instance G → Prop) :
  R self → ensures (raise e) self Q R.
Proof. done. Qed.

Lemma ensures_bind {A B} (m : M G A) (k : A → M G B) self Q R :
  ensures m self (λ a self', ensures (k a) self' Q R) R →
  ensures (bind m k) self Q R.
Proof. unfold ensures, bind. by destruct (m self). Qed.

Lemma ensures_impl {A} (m : M G A) self (Q Q' : A → instance G → Prop)
    (R R' : instance G → Prop) :
  ensures m self Q R →
  (∀ a self', Q a self' → Q' a self') → (∀ self', R self' → R' self') →
  ensures m self Q' R'.
Proof. unfold ensures. destruct (m self); auto. Qed.

Lemma ensures_Return {A} (m : M G A) self Q R a self' :
  ensures m self Q R → m self = Return a self' → Q a self'.
Proof. unfold ensures. intros Hm Heq. by rewrite Heq in Hm. Qed.

Lemma ensures_Raise {A} (m : M G A) self (Q : A → instance G → Prop) R e self' :
  ensures m self Q R → m self = Raise e self' → R self'.
Proof. unfold ensures. intros Hm Heq. by rewrite Heq in Hm. Qed.

Lemma ensures_draw {A} (f : G → A * G) self (Q : A → instance G → Prop) R :
  (∀ a g, f (rng self) = (a, g) →
          Q a {| rng := g; used_values := used_values self |}) →
  ensures (draw f) self Q R.
Proof.
  intros HQ. unfold ensures, draw.
  destruct (f (rng self)) as [a g] eqn:Hf. by apply HQ.
Qed.

Lemma bind_Return {A B} (m : M G A) (k : A → M G B) self b self'' :
  bind m k self = Return b self'' ↔
  ∃ a self', m self = Return a self' ∧ k a self' = Return b self''.
Proof.
  unfold bind. split.
  - destruct (m self) as [a self'| |]; [eauto | done..].
  - by intros (a & self' & -> & ?).
Qed.

Lemma stable_const {A} (m : M G A) : stable (λ _, m).
Proof. by intros ?? ?. Qed.

Lemma stable_bind {A B} (m : nat → M G A) (k : A → nat → M G B) :
  stable m → (∀ a, stable (k a)) →
  stable (λ fuel, bind (m fuel) (λ a, k a fuel)).
Proof.
  intros Hm Hk fuel fuel' self Hle. unfold bind.
  destruct (m fuel self) as [a self'| e self'|] eqn:Hrun; [| |done].
  - intros Hne. rewrite (Hm fuel fuel' self Hle), Hrun by (by rewrite Hrun).
    by apply Hk.
  - intros _. by rewrite (Hm fuel fuel' self Hle), Hrun by (by rewrite Hrun).
Qed.

Lemma stable_if {A} (b : bool) (m1 m2 : nat → M G A) :
  stable m1 → stable m2 → stable (λ fuel, if b then m1 fuel else m2 fuel).
Proof. by destruct b. Qed.

Lemma stable_decide {A} (P : Prop) `{Decision P} (m1 m2 : nat → M G A) :
  stable m1 → stable m2 →
  stable (λ fuel, if decide P then m1 fuel else m2 fuel).
Proof. by case_decide. Qed.

End Outcomes.

(** ** The synthesizer *)

Section UniquifyFacts.
Context {G : Type} `{RandomSource G}.

(** [uniquify] returns an output of its generator that was not in the
    registry and adds exactly that string; it never raises. *)
Lemma uniquify_spec fuel (generator : G → string * G) self :
  ensures (uniquify fuel generator) self
    (λ v self', (v ∉ used_values self)
                ∧ used_values self' = {[v]} ∪ used_values self
                ∧ ∃ g, v = (generator g).1)
    (λ _, False).
Proof.
  revert self. induction fuel as [|fuel IH]; intros self; [done |].
  unfold ensures. cbn.
  destruct (generator (rng self)) as [v g'] eqn:Hgen.
  case_decide as Hin.
  - exact (IH {| rng := g'; used_values := used_values self |}).
  - cbn. split_and!; [done.. |]. exists (rng self). by rewrite Hgen.
Qed.

Lemma uniquify_stable (generator : G → string * G) :
  stable (λ fuel, uniquify fuel generator).
Proof.
  intros fuel. induction fuel as [|fuel IH]; intros fuel' self Hle; [done |].
  destruct fuel' as [|fuel']; [lia |]. cbn.
  destruct (generator (rng self)) as [v g'].
  case_decide; [| done]. apply IH. lia.
Qed.

(** On a registry without [v]'s first draw, one unit of fuel is enough. *)
Lemma uniquify_fresh fuel (generator : G → string * G) self :
  (generator (rng self)).1 ∉ used_values self →
  uniquify (S fuel) generator self =
    Return (generator (rng self)).1
      {| rng := (generator (rng self)).2;
         used_values := {[(generator (rng self)).1]} ∪ used_values self |}.
Proof.
  intros Hfresh. cbn. destruct (generator (rng self)) as [v g'].
  cbn in *. by case_decide.
Qed.

End UniquifyFacts.

Section ValueFacts.
Context {G : Type} `{RandomSource G}.

Lemma value_string_spec cfg fuel length (self : instance G) :
  cfg_return_type cfg = "string" →
  ensures (value cfg fuel length) self
    (λ v self', ∃ s, v = DQ +:+ s +:+ DQ
                     ∧ lowercase_word (default (cfg_return_length cfg) length) s
                     ∧ (s ∉ used_values self)
                     ∧ used_values self' = {[s]} ∪ used_values self)
    (λ _, False).
Proof.
  intros Htype. unfold value. rewrite decide_True by done.
  apply ensures_bind. eapply ensures_impl; [apply uniquify_spec | | done].
  intros s self' (Hfresh & Hused & g & ->). apply ensures_ret.
  eexists. split_and!; [done | apply random_string_spec.. | done | done].
Qed.

Lemma value_integer_spec cfg fuel length (self : instance G) :
  cfg_return_type cfg = "integer" →
  ensures (value cfg fuel length) self
    (λ v self', String.length v = Z.to_nat (default (cfg_return_length cfg) length)
                ∧ all_chars is_digit v = true
                ∧ (0 < default (cfg_return_length cfg) length →
                   integer_literal (default (cfg_return_length cfg) length) v)
                ∧ (v ∉ used_values self)
                ∧ used_values self' = {[v]} ∪ used_values self)
    (λ _, False).
Proof.
  intros Htype. unfold value.
  rewrite decide_False, decide_True by (by rewrite ?Htype).
  eapply ensures_impl; [apply uniquify_spec | | done].
  intros s self' (Hfresh & Hused & g & ->).
  split_and!; [apply random_integer_spec.. | | done | done].
  intros Hpos. split_and!; [apply random_integer_spec.. |].
  by apply random_integer_first.
Qed.

End ValueFacts.

(** C6. For every length [L > 0], [random_integer(L)] is a string of exactly
    [L] digits whose first character is one of 1..9; so with
    [return_type = "integer"] a value returned by [value(length=L)] never
    starts with the character 0. *)
Theorem random_integer_no_leading_zero {G : Type} `{RandomSource G}
    (L : Z) (cfg : configuration) (fuel : nat) (length : option Z)
    (self : instance G) :
  0 < L →
  (∀ g : G, integer_literal L (random_integer L g).1)
  ∧ (cfg_return_type cfg = "integer" →
     default (cfg_return_length cfg) length = L →
     ∀ v self', value cfg fuel length self = Return v self' →
       integer_literal L v ∧ first_char v ≠ Some "0"%char).
Proof.
  intros Hpos. split.
  - intros g. split_and!; [apply random_integer_spec.. |].
    by apply random_integer_first.
  - intros Htype Hlen v self' Hrun.
    pose proof (value_integer_spec cfg fuel length self Htype) as Hspec.
    apply (ensures_Return _ _ _ _ _ _ Hspec) in Hrun as (_ & _ & Hlit & _).
    rewrite Hlen in Hlit. specialize (Hlit Hpos). split; [done |].
    destruct Hlit as (_ & _ & c & t & -> & Hc). cbn. intros [= ->]. done.
Qed.

Lemma random_integer_no_leading_zero_witness :
  0 < 3
  ∧ ∃ v self', value cfg_integer 1 (Some 3) instance_42 = Return v self'
               ∧ integer_literal 3 v ∧ first_char v ≠ Some "0"%char.
Proof.
  split; [lia |]. eexists _, _. split; [vm_compute; reflexivity |].
  eapply (proj2 (random_integer_no_leading_zero 3 cfg_integer 1 (Some 3)
                  instance_42 ltac:(lia)));
    [reflexivity | reflexivity | vm_compute; reflexivity].
Defined.

(** ** The fixed naming scheme *)

Section FixedNameFacts.
Context {G : Type} `{RandomSource G}.

Lemma append_neq_self (s t : string) : t ≠ EmptyString → s +:+ t ≠ s.
Proof.
  intros Hne Heq. apply (f_equal String.length) in Heq.
  rewrite length_append in Heq. destruct t; [done | cbn in Heq; lia].
Qed.

(** The candidates of one canonical name are pairwise distinct. *)
Lemma candidate_inj (canonical : string) (i j : Z) :
  candidate canonical i = candidate canonical j → i = j.
Proof.
  unfold candidate. do 2 case_decide; subst; [done | | |].
  - intros Heq. symmetry in Heq. by apply append_neq_self in Heq.
  - intros Heq. by apply append_neq_self in Heq.
  - intros Heq. apply (inj (String.append canonical)) in Heq.
    apply (inj (String.append "_")) in Heq. by apply (inj pretty) in Heq.
Qed.

(** If the candidates [index .. index + k - 1] are taken and the next one is
    free, the loop returns that one after [k + 1] iterations. *)
Lemma fixed_name_run (k fuel : nat) (canonical : string) (index : Z)
    (self : instance G) :
  (∀ j : nat, (j < k)%nat →
     candidate canonical (index + Z.of_nat j) ∈ used_values self) →
  candidate canonical (index + Z.of_nat k) ∉ used_values self →
  (k < fuel)%nat →
  fixed_name fuel canonical index self =
    Return (candidate canonical (index + Z.of_nat k))
      {| rng := rng self;
         used_values :=
           {[candidate canonical (index + Z.of_nat k)]} ∪ used_values self |}.
Proof.
  revert fuel index. induction k as [|k IH]; intros fuel index Htaken Hfree Hfuel.
  - destruct fuel as [|fuel]; [lia |]. cbn.
    replace (index + Z.of_nat 0) with index in * by lia. by rewrite decide_False.
  - destruct fuel as [|fuel]; [lia |]. cbn.
    rewrite decide_True.
    2:{ specialize (Htaken 0%nat). replace (index + Z.of_nat 0) with index in Htaken by lia.
        apply Htaken. lia. }
    replace (index + Z.of_nat (S k)) with (index + 1 + Z.of_nat k) in * by lia.
    apply IH; [| done | lia].
    intros j Hj. replace (index + 1 + Z.of_nat j) with (index + Z.of_nat (S j)) by lia.
    apply Htaken. lia.
Qed.

(** Among the candidates [0 .. n] either there is a first free one, or all
    are taken. *)
Lemma first_free_candidate (n : nat) (canonical : string) (used : gset string) :
  (∃ k : nat, (k ≤ n)%nat
     ∧ (∀ j : nat, (j < k)%nat → candidate canonical (Z.of_nat j) ∈ used)
     ∧ (candidate canonical (Z.of_nat k) ∉ used))
  ∨ (∀ j : nat, (j ≤ n)%nat → candidate canonical (Z.of_nat j) ∈ used).
Proof.
  induction n as [|n [(k & Hk & Htaken & Hfree) | Hall]].
  - destruct (decide (candidate canonical (Z.of_nat 0) ∈ used)) as [Hin | Hout].
    + right. intros j Hj. by replace j with 0%nat by lia.
    + left. exists 0%nat. split_and!; [lia | intros; lia | done].
  - left. exists k. split_and!; [lia | done | done].
  - destruct (decide (candidate canonical (Z.of_nat (S n)) ∈ used)) as [Hin | Hout].
    + right. intros j Hj. destruct (decide (j = S n)) as [-> | Hne]; [done |].
      apply Hall. lia.
    + left. exists (S n). split_and!; [lia | | done].
      intros j Hj. apply Hall. lia.
Qed.

(** A finite registry cannot hold all of [size + 1] distinct candidates. *)
Lemma candidates_not_all_taken (canonical : string) (used : gset string) :
  ¬ ∀ j : nat, (j ≤ size used)%nat → candidate canonical (Z.of_nat j) ∈ used.
Proof.
  intros Hall.
  set (cands := (λ j : nat, candidate canonical (Z.of_nat j)) <$> seq 0 (S (size used))).
  assert (Hnodup : NoDup cands).
  { apply NoDup_fmap_2_strong; [| apply NoDup_seq].
    intros i j _ _ Heq. apply candidate_inj in Heq. lia. }
  assert (Hsub : list_to_set cands ⊆ used).
  { intros c [j [-> Hj]]%elem_of_list_to_set%list_elem_of_fmap.
    apply Hall. apply elem_of_seq in Hj. lia. }
  apply subseteq_size in Hsub.
  rewrite size_list_to_set in Hsub by done.
  unfold cands in Hsub. rewrite length_fmap, length_seq in Hsub. lia.
Qed.

(** The fixed scheme's loop ends: it returns the first free candidate, whose
    index is at most the size of the registry. *)
Lemma fixed_name_terminates (fuel : nat) (canonical : string) (self : instance G) :
  (size (used_values self) < fuel)%nat →
  ∃ k : nat, (k ≤ size (used_values self))%nat
    ∧ (∀ j : nat, (j < k)%nat →
         candidate canonical (Z.of_nat j) ∈ used_values self)
    ∧ (candidate canonical (Z.of_nat k) ∉ used_values self)
    ∧ fixed_name fuel canonical 0 self =
        Return (candidate canonical (Z.of_nat k))
          {| rng := rng self;
             used_values :=
               {[candidate canonical (Z.of_nat k)]} ∪ used_values self |}.
Proof.
  intros Hfuel.
  destruct (first_free_candidate (size (used_values self)) canonical
              (used_values self)) as [(k & Hk & Htaken & Hfree) | Hall].
  - exists k. split_and!; [done.. |].
    apply (fixed_name_run k fuel canonical 0 self); [done | done | lia].
  - by apply candidates_not_all_taken in Hall.
Qed.

Lemma fixed_name_stable (canonical : string) (index : Z) :
  stable (λ fuel, (fixed_name fuel canonical index : M G string)).
Proof.
  intros fuel. revert index.
  induction fuel as [|fuel IH]; intros index fuel' self Hle; [done |].
  destruct fuel' as [|fuel']; [lia |]. cbn.
  case_decide; [| done]. apply IH. lia.
Qed.

(** The loop returns a candidate that was free and adds exactly it. *)
Lemma fixed_name_spec fuel (canonical : string) (index : Z) (self : instance G) :
  ensures (fixed_name fuel canonical index) self
    (λ v self', (v ∉ used_values self)
                ∧ used_values self' = {[v]} ∪ used_values self
                ∧ rng self' = rng self
                ∧ ∃ k : nat, v = candidate canonical (index + Z.of_nat k))
    (λ _, False).
Proof.
  revert index. induction fuel as [|fuel IH]; intros index; [done |].
  unfold ensures. cbn. case_decide as Hin.
  - eapply ensures_impl; [apply (IH (index + 1)) | | done].
    intros v self' (? & ? & ? & k & ->). split_and!; [done.. |].
    exists (S k). f_equal. lia.
  - cbn. split_and!; [done.. |]. exists 0%nat. f_equal. lia.
Qed.

Lemma function_name_fixed cfg fuel canonical (self : instance G) :
  cfg_function_name cfg = "fixed" →
  function_name cfg fuel canonical self = fixed_name fuel canonical 0 self.
Proof.
  intros Hscheme. unfold function_name.
  by rewrite decide_False, decide_True by (by rewrite ?Hscheme).
Qed.

End FixedNameFacts.

(** C5. With the fixed scheme, the first call [function_name(C)] of a new
    instance returns [C] verbatim and the second returns [C_1]. On any
    instance, [function_name(C)] returns [C] verbatim when [C] is not in the
    registry; asked for [C] again while [C_1] is unused, it returns [C_1].
    In general it returns the first free one of [C], [C_1], [C_2], ...,
    which exists. *)
Theorem fixed_name_twice {G : Type} `{RandomSource G}
    (cfg : configuration) (fuel : nat) (C : string) :
  cfg_function_name cfg = "fixed" →
  (∀ g : G, ∃ self1 self2,
     function_name cfg (S fuel) C (new_instance g) = Return C self1
     ∧ function_name cfg (S (S fuel)) C self1 = Return (C +:+ "_1") self2)
  ∧ (∀ self : instance G,
       C ∉ used_values self → C +:+ "_1" ∉ used_values self →
       ∃ self1 self2,
         function_name cfg (S fuel) C self = Return C self1
         ∧ function_name cfg (S (S fuel)) C self1 = Return (C +:+ "_1") self2
         ∧ used_values self1 = {[C]} ∪ used_values self
         ∧ used_values self2 = {[C +:+ "_1"]} ∪ ({[C]} ∪ used_values self))
  ∧ (∀ other : instance G, (size (used_values other) < fuel)%nat →
       ∃ k : nat,
         (∀ j : nat, (j < k)%nat → candidate C (Z.of_nat j) ∈ used_values other)
         ∧ (candidate C (Z.of_nat k) ∉ used_values other)
         ∧ function_name cfg fuel C other =
             Return (candidate C (Z.of_nat k))
               {| rng := rng other;
                  used_values := {[candidate C (Z.of_nat k)]} ∪ used_values other |}).
Proof.
  intros Hscheme.
  assert (Hname : ∀ f (s : instance G), function_name cfg f C s = fixed_name f C 0 s).
  { intros f s. by apply function_name_fixed. }
  assert (Htwice : ∀ self : instance G,
            C ∉ used_values self → C +:+ "_1" ∉ used_values self →
            ∃ self1 self2,
              function_name cfg (S fuel) C self = Return C self1
              ∧ function_name cfg (S (S fuel)) C self1 = Return (C +:+ "_1") self2
              ∧ used_values self1 = {[C]} ∪ used_values self
              ∧ used_values self2 = {[C +:+ "_1"]} ∪ ({[C]} ∪ used_values self)).
  { intros self Hfree0 Hfree1. rewrite Hname. eexists _, _. split_and!.
    - apply (fixed_name_run 0 (S fuel) C 0 self); [intros; lia | done | lia].
    - rewrite Hname.
      apply (fixed_name_run 1 (S (S fuel)) C 0); [| | lia].
      + intros j Hj. replace j with 0%nat by lia. cbn. set_solver.
      + change (candidate C (0 + Z.of_nat 1)) with (C +:+ "_1"). cbn.
        assert (C +:+ "_1" ≠ C) by (by apply append_neq_self). set_solver.
    - reflexivity.
    - reflexivity. }
  split_and!.
  - intros g.
    destruct (Htwice (new_instance g)) as (self1 & self2 & ? & ? & _);
      [set_solver | set_solver |].
    by exists self1, self2.
  - exact Htwice.
  - intros other Hfuel.
    destruct (fixed_name_terminates fuel C other Hfuel) as (k & _ & ? & ? & ?).
    exists k. by rewrite Hname.
Qed.

Lemma fixed_name_twice_witness :
  cfg_function_name cfg_fixed = "fixed"
  ∧ ∃ self1 self2,
      function_name cfg_fixed 1 "key_function" instance_42
      = Return "key_function" self1
      ∧ function_name cfg_fixed 2 "key_function" self1
        = Return "key_function_1" self2.
Proof.
  split; [reflexivity |].
  apply (proj1 (fixed_name_twice cfg_fixed 0 "key_function" eq_refl) 42%N).
Defined.

(** ** The task shapes *)

Section ShapeFacts.
Context {G : Type} `{RandomSource G}.

(** On a new instance [value] returns at its first draw. *)
Lemma value_new_instance cfg fuel length (g : G) :
  cfg_return_type cfg = "string" ∨ cfg_return_type cfg = "integer" →
  ∃ v self', value cfg (S fuel) length (new_instance g) = Return v self'
             ∧ size (used_values self') = 1%nat.
Proof.
  intros [Htype | Htype]; unfold value.
  - rewrite decide_True by done. unfold bind.
    rewrite uniquify_fresh by set_solver. cbn.
    eexists _, _. split; [reflexivity |]. cbn.
    by rewrite union_empty_r_L, size_singleton.
  - rewrite decide_False, decide_True by (by rewrite ?Htype).
    rewrite uniquify_fresh by set_solver. cbn.
    eexists _, _. split; [reflexivity |]. cbn.
    by rewrite union_empty_r_L, size_singleton.
Qed.

End ShapeFacts.

(** C4. Whenever [build("one-step")] returns, its result has exactly one
    context segment, [def <key>():\n    return <literal>], the prompt
    [assert <key>() ==] and the expected output [ <literal>], the literal
    after one space, where the literal is what [value()] returned and the key
    what [function_name("key_function")] returned. With the fixed scheme it
    does return on a new instance. *)
Theorem one_step_result {G : Type} `{RandomSource G}
    (cfg : configuration) (fuel : nat) (self : instance G) :
  (∀ r self', Krc.build cfg fuel "one-step" self = Return r self' →
     ∃ key literal self1,
       value cfg fuel None self = Return literal self1
       ∧ function_name cfg fuel "key_function" self1 = Return key self'
       ∧ r = (["def " +:+ key +:+ "():" +:+ NL +:+ "    return " +:+ literal],
              "assert " +:+ key +:+ "() ==",
              " " +:+ literal))
  ∧ (cfg_function_name cfg = "fixed" →
     cfg_return_type cfg = "string" ∨ cfg_return_type cfg = "integer" →
     (2 ≤ fuel)%nat →
     ∀ g : G, ∃ r self', Krc.build cfg fuel "one-step" (new_instance g)
                       = Return r self').
Proof.
  split.
  - intros r self' Hrun. unfold Krc.build in Hrun.
    rewrite decide_True in Hrun by done. unfold Krc.one_step in Hrun.
    apply bind_Return in Hrun as (literal & self1 & Hvalue & Hrun).
    apply bind_Return in Hrun as (key & self2 & Hname & Hrun).
    injection Hrun as <- <-. by exists key, literal, self1.
  - intros Hscheme Htype Hfuel g.
    destruct fuel as [|[|fuel]]; [lia | lia |].
    unfold Krc.build. rewrite decide_True by done. unfold Krc.one_step, bind.
    destruct (value_new_instance cfg (S fuel) None g Htype)
      as (v & self1 & -> & Hsize).
    rewrite function_name_fixed by done.
    destruct (fixed_name_terminates (S (S fuel)) "key_function" self1)
      as (k & _ & _ & _ & ->); [lia |].
    by eexists _, _.
Qed.

Lemma one_step_result_witness :
  ∃ r self', Krc.build cfg_random 5 "one-step" instance_42 = Return r self'
    ∧ ∃ key literal,
        r = (["def " +:+ key +:+ "():" +:+ NL +:+ "    return " +:+ literal],
             "assert " +:+ key +:+ "() ==",
             " " +:+ literal).
Proof.
  eexists _, _. split; [vm_compute; reflexivity |].
  edestruct (proj1 (one_step_result cfg_random 5 instance_42))
    as (key & literal & self1 & _ & _ & Hr); [vm_compute; reflexivity |].
  exists key, literal. exact Hr.
Defined.

Lemma substring_prefix (s t : string) :
  String.substring 0 (String.length s) (s +:+ t) = s.
Proof.
  induction s as [|c s IH]; cbn; [by destruct t | by rewrite IH].
Qed.

(** Stripping the quotes of a quoted string gives back its inner text. *)
Lemma slice_quoted (s : string) : slice_1_m1 (DQ +:+ s +:+ DQ) = s.
Proof.
  unfold slice_1_m1, DQ. cbn. rewrite length_append. cbn.
  replace (String.length s + 1 - 1)%nat with (String.length s) by lia.
  apply substring_prefix.
Qed.

Section ConcatenationFacts.
Context {G : Type} `{RandomSource G}.

(** The two half-values of a concatenation task. *)
Lemma half_values cfg fuel (self self1 self2 : instance G) v1 v2 :
  cfg_return_type cfg = "string" →
  value cfg fuel (Some (cfg_return_length cfg / 2)) self = Return v1 self1 →
  value cfg fuel (Some (cfg_return_length cfg / 2)) self1 = Return v2 self2 →
  ∃ h1 h2, v1 = DQ +:+ h1 +:+ DQ ∧ v2 = DQ +:+ h2 +:+ DQ
           ∧ lowercase_word (cfg_return_length cfg / 2) h1
           ∧ lowercase_word (cfg_return_length cfg / 2) h2
           ∧ h1 ≠ h2.
Proof.
  intros Htype Hv1 Hv2.
  pose proof (value_string_spec cfg fuel (Some (cfg_return_length cfg / 2))
                self Htype) as Hs1.
  apply (ensures_Return _ _ _ _ _ _ Hs1) in Hv1 as (h1 & -> & Hw1 & _ & Hu1).
  pose proof (value_string_spec cfg fuel (Some (cfg_return_length cfg / 2))
                self1 Htype) as Hs2.
  apply (ensures_Return _ _ _ _ _ _ Hs2) in Hv2 as (h2 & -> & Hw2 & Hfresh & _).
  exists h1, h2. split_and!; [done.. |].
  intros ->. apply Hfresh. rewrite Hu1. set_solver.
Qed.

End ConcatenationFacts.

(** C3, as the code has it. With [return_type = "string"], whenever
    [build("concatenation")] returns (in [krc.py] and in [krfix.py]), two
    half-values of [return_length // 2] lowercase letters each were drawn,
    and the expected output is one space followed by a single quoted string:
    the two half-values without their quotes, joined and quoted again. For
    [return_length = 10] the quoted string has 12 characters and the
    expected output, with its leading space, 13. *)
Theorem concatenation_expected_output {G : Type} `{RandomSource G}
    (cfg : configuration) (fuel : nat) (self : instance G)
    (r : task_result) (self' : instance G) :
  cfg_return_type cfg = "string" →
  Krc.build cfg fuel "concatenation" self = Return r self'
  ∨ Krfix.build cfg fuel "concatenation" self = Return r self' →
  ∃ v1 v2 h1 h2 self1 self2,
    value cfg fuel (Some (cfg_return_length cfg / 2)) self = Return v1 self1
    ∧ value cfg fuel (Some (cfg_return_length cfg / 2)) self1 = Return v2 self2
    ∧ v1 = DQ +:+ h1 +:+ DQ ∧ v2 = DQ +:+ h2 +:+ DQ
    ∧ lowercase_word (cfg_return_length cfg / 2) h1
    ∧ lowercase_word (cfg_return_length cfg / 2) h2
    ∧ r.2 = " " +:+ (DQ +:+ (h1 +:+ h2) +:+ DQ)
    ∧ (cfg_return_length cfg = 10 →
       String.length (DQ +:+ (h1 +:+ h2) +:+ DQ) = 12%nat
       ∧ String.length r.2 = 13%nat).
Proof.
  intros Htype Hrun.
  assert (∃ v1 v2 self1 self2,
            value cfg fuel (Some (cfg_return_length cfg / 2)) self = Return v1 self1
            ∧ value cfg fuel (Some (cfg_return_length cfg / 2)) self1 = Return v2 self2
            ∧ r.2 = " " +:+ DQ +:+ (slice_1_m1 v1 +:+ slice_1_m1 v2) +:+ DQ)
    as (v1 & v2 & self1 & self2 & Hv1 & Hv2 & Hexp).
  { destruct Hrun as [Hrun | Hrun].
    - unfold Krc.build in Hrun.
      rewrite !decide_False, decide_True in Hrun by done.
      unfold Krc.concatenation in Hrun. rewrite decide_True in Hrun by done.
      apply bind_Return in Hrun as (v1 & self1 & Hv1 & Hrun).
      apply bind_Return in Hrun as (v2 & self2 & Hv2 & Hrun).
      apply bind_Return in Hrun as (key & self3 & _ & Hrun).
      apply bind_Return in Hrun as (f1 & self4 & _ & Hrun).
      apply bind_Return in Hrun as (f2 & self5 & _ & Hrun).
      injection Hrun as <- <-. by exists v1, v2, self1, self2.
    - unfold Krfix.build in Hrun.
      rewrite decide_False, decide_True in Hrun by done.
      unfold Krfix.concatenation in Hrun. rewrite decide_True in Hrun by done.
      apply bind_Return in Hrun as (v1 & self1 & Hv1 & Hrun).
      apply bind_Return in Hrun as (v2 & self2 & Hv2 & Hrun).
      apply bind_Return in Hrun as (key & self3 & _ & Hrun).
      apply bind_Return in Hrun as (f1 & self4 & _ & Hrun).
      apply bind_Return in Hrun as (f2 & self5 & _ & Hrun).
      apply bind_Return in Hrun as ([d1 d2] & self6 & _ & Hrun).
      apply bind_Return in Hrun as (dk & self7 & _ & Hrun).
      injection Hrun as <- <-. by exists v1, v2, self1, self2. }
  destruct (half_values cfg fuel self self1 self2 v1 v2 Htype Hv1 Hv2)
    as (h1 & h2 & -> & -> & Hw1 & Hw2 & _).
  rewrite !slice_quoted in Hexp.
  exists (DQ +:+ h1 +:+ DQ), (DQ +:+ h2 +:+ DQ), h1, h2, self1, self2.
  split_and!; [done.. |].
  intros Hlen. rewrite Hexp.
  destruct Hw1 as [Hl1 _], Hw2 as [Hl2 _]. rewrite Hlen in Hl1, Hl2.
  cbn. rewrite !length_append, Hl1, Hl2. done.
Qed.

Lemma concatenation_expected_output_witness :
  ∃ r self', Krc.build cfg_random 5 "concatenation" instance_42 = Return r self'
    ∧ r.2 = " " +:+ (DQ +:+ ("xdhhy" +:+ "bbgtz") +:+ DQ)
    ∧ String.length r.2 = 13%nat.
Proof.
  eexists _, _. split; [vm_compute; reflexivity |].
  edestruct (concatenation_expected_output cfg_random 5 instance_42)
    as (v1 & v2 & h1 & h2 & self1 & self2 & _ & _ & _ & _ & _ & _ & _ & Hlen);
    [reflexivity | left; vm_compute; reflexivity |].
  split; [vm_compute; reflexivity | apply Hlen; reflexivity].
Defined.

(** C3 as the specification words it does not hold: the expected output of
    a concatenation task with [return_length = 10] has 13 characters, not
    12, and it is not the quoted string itself, because of the leading
    space. *)
Lemma concatenation_expected_output_counterexample :
  ∃ r self', Krc.build cfg_random 5 "concatenation" instance_42 = Return r self'
    ∧ cfg_return_type cfg_random = "string"
    ∧ cfg_return_length cfg_random = 10
    ∧ String.length r.2 ≠ 12%nat
    ∧ r.2 ≠ DQ +:+ ("xdhhy" +:+ "bbgtz") +:+ DQ.
Proof.
  eexists _, _. split; [vm_compute; reflexivity |].
  split_and!; [reflexivity | reflexivity | vm_compute; lia | ].
  vm_compute. discriminate.
Qed.

(** ** Substring containment *)

Lemma prefix_append (s t : string) : String.prefix s (s +:+ t) = true.
Proof.
  induction s as [|c s IH]; cbn; [by destruct t |].
  destruct (ascii_dec c c); [done | congruence].
Qed.

Lemma prefix_inv (s t : string) :
  String.prefix s t = true → ∃ post, t = s +:+ post.
Proof.
  revert t. induction s as [|c s IH]; intros t; cbn.
  - intros _. by exists t.
  - destruct t as [|d t]; cbn; [done |].
    destruct (ascii_dec c d) as [<- | ?]; [| done].
    intros [post ->]%IH. exists post. reflexivity.
Qed.

(** [str_in] is containment as a contiguous substring, the meaning of
    [needle in hay] on Python strings. *)
Lemma str_in_spec (needle hay : string) :
  str_in needle hay = true ↔ ∃ pre post, hay = pre +:+ needle +:+ post.
Proof.
  split.
  - induction hay as [|c hay IH]; cbn [str_in].
    + intros [post Heq]%prefix_inv. exists EmptyString, post. exact Heq.
    + intros [Hpre | Hin]%orb_true_iff.
      * apply prefix_inv in Hpre as [post Heq]. exists EmptyString, post.
        exact Heq.
      * destruct (IH Hin) as (pre & post & ->). by exists (String c pre), post.
  - intros (pre & post & ->). induction pre as [|c pre IH].
    + change (EmptyString +:+ needle +:+ post) with (needle +:+ post).
      destruct (needle +:+ post) eqn:Heq; cbn [str_in].
      * destruct needle; [done | discriminate].
      * rewrite <- Heq, prefix_append. done.
    + change (String c pre +:+ needle +:+ post)
        with (String c (pre +:+ needle +:+ post)).
      cbn [str_in]. rewrite IH. apply orb_true_r.
Qed.

(** C9. In the krfix builder the comment type is tested by substring
    containment on the raw string: a direction is in the comment type when
    it occurs in it as a contiguous substring. So each one-hop comment type
    gives exactly the outcome of the comment type without [_one_hop]: the
    same full-chain comments, the same prompt and expected output, the same
    instance afterwards. *)
Theorem one_hop_same_as_full_chain {G : Type} `{RandomSource G}
    (cfg : configuration) (fuel : nat) (self : instance G)
    (one_hop full : string) :
  (one_hop, full) ∈ one_hop_comment_types →
  cfg_call_graph_comment_type cfg = one_hop →
  (∀ direction, str_in direction one_hop = true
                ↔ ∃ pre post, one_hop = pre +:+ direction +:+ post)
  ∧ str_in "calls" one_hop = str_in "calls" full
  ∧ str_in "called_by" one_hop = str_in "called_by" full
  ∧ ∀ variant,
      Krfix.build cfg fuel variant self
      = Krfix.build (with_comment_type full cfg) fuel variant self.
Proof.
  intros Hpair Htype. unfold one_hop_comment_types in Hpair.
  split; [intros direction; apply str_in_spec |].
  assert (Hbuild : str_in "calls" one_hop = str_in "calls" full →
            str_in "called_by" one_hop = str_in "called_by" full →
            ∀ variant, Krfix.build cfg fuel variant self
              = Krfix.build (with_comment_type full cfg) fuel variant self).
  { intros Hcalls Hcalled variant. unfold Krfix.build.
    unfold Krfix.three_step, Krfix.concatenation, Krfix.call_graph_comment.
    cbn [with_comment_type cfg_call_graph_comment_type
         cfg_call_graph_template_variant cfg_return_type cfg_return_length].
    rewrite Htype, Hcalls, Hcalled. reflexivity. }
  repeat (apply elem_of_cons in Hpair as [[= -> ->] | Hpair]);
    [| | | by apply elem_of_nil in Hpair];
    (split_and!; [reflexivity | reflexivity | by apply Hbuild]).
Qed.

Lemma one_hop_same_as_full_chain_witness :
  ("calls_one_hop,called_by_one_hop", "calls,called_by") ∈ one_hop_comment_types
  ∧ Krfix.build cfg_one_hop 5 "three-step" instance_42
    = Krfix.build (with_comment_type "calls,called_by" cfg_one_hop) 5
        "three-step" instance_42.
Proof.
  assert (Hpair : ("calls_one_hop,called_by_one_hop", "calls,called_by")
                  ∈ one_hop_comment_types)
    by (unfold one_hop_comment_types; set_solver).
  split; [exact Hpair |].
  apply (one_hop_same_as_full_chain cfg_one_hop 5 instance_42 _ _ Hpair eq_refl).
Defined.

(** ** Fuel does not change an outcome *)

Section Stability.
Context {G : Type} `{RandomSource G}.

Ltac stable_step :=
  first
    [ apply stable_const
    | apply uniquify_stable
    | apply fixed_name_stable
    | apply stable_decide
    | apply stable_if
    | apply stable_bind; [| intros ?] ].

Lemma value_stable cfg length :
  stable (λ fuel, (value cfg fuel length : M G string)).
Proof. unfold value. repeat stable_step. Qed.

Lemma name_parts_stable length count i parts :
  stable (λ fuel, (name_parts fuel length count i parts : M G (list string))).
Proof.
  revert i parts. induction count as [|count IH]; intros i parts; cbn [name_parts].
  - apply stable_const.
  - apply (stable_bind (λ _, part_generator i)); [apply stable_const |].
    intros fn. apply stable_bind; [apply uniquify_stable |].
    intros p. apply IH.
Qed.

Lemma function_name_stable cfg canonical :
  stable (λ fuel, (function_name cfg fuel canonical : M G string)).
Proof.
  unfold function_name, random_name_parts.
  apply stable_decide; [| repeat stable_step].
  apply stable_bind; [| intros ?; apply stable_const].
  apply (stable_bind (λ _, randint _ _)); [apply stable_const |].
  intros n. apply name_parts_stable.
Qed.

Ltac stable_shape :=
  repeat first
    [ apply value_stable
    | apply function_name_stable
    | stable_step ].

Lemma krc_build_stable cfg variant :
  stable (λ fuel, (Krc.build cfg fuel variant : M G task_result)).
Proof.
  unfold Krc.build, Krc.one_step, Krc.two_step, Krc.three_step,
    Krc.concatenation.
  stable_shape.
Qed.

Lemma krfix_build_stable cfg variant :
  stable (λ fuel, (Krfix.build cfg fuel variant : M G task_result)).
Proof.
  unfold Krfix.build, Krfix.three_step, Krfix.concatenation.
  stable_shape.
Qed.

Lemma builds_stable (build : nat → string → M G task_result) variants :
  (∀ variant, stable (λ fuel, build fuel variant)) →
  stable (λ fuel, builds (build fuel) variants).
Proof.
  intros Hbuild. induction variants as [|v variants IH]; cbn [builds].
  - apply stable_const.
  - apply stable_bind; [apply Hbuild |]. intros r.
    apply stable_bind; [apply IH |]. intros rs. apply stable_const.
Qed.

(** Two runs of one computation that both end, end alike. *)
Lemma stable_agree {A} (m : nat → M G A) fuel1 fuel2 self :
  stable m →
  m fuel1 self ≠ OutOfFuel → m fuel2 self ≠ OutOfFuel →
  m fuel1 self = m fuel2 self.
Proof.
  intros Hm H1 H2.
  rewrite <- (Hm fuel1 (fuel1 `max` fuel2)%nat self) by (lia || done).
  rewrite <- (Hm fuel2 (fuel1 `max` fuel2)%nat self) by (lia || done).
  done.
Qed.

End Stability.

(** C2. Two builders constructed with equal configurations and identically
    seeded randomness sources, given the same sequence of [build(variant)]
    calls, produce identical task results (and are left in the same state);
    this holds for the builder of [krc.py] and for that of [krfix.py], and
    whatever number of loop iterations each run is allowed, as long as both
    runs end. *)
Theorem builds_deterministic {G : Type} `{RandomSource G}
    (cfg1 cfg2 : configuration) (g1 g2 : G) (variants : list string)
    (fuel1 fuel2 : nat) (rs1 rs2 : list task_result) (s1 s2 : instance G) :
  cfg1 = cfg2 → g1 = g2 →
  (builds (Krc.build cfg1 fuel1) variants (new_instance g1) = Return rs1 s1 →
   builds (Krc.build cfg2 fuel2) variants (new_instance g2) = Return rs2 s2 →
   rs1 = rs2 ∧ s1 = s2)
  ∧ (builds (Krfix.build cfg1 fuel1) variants (new_instance g1) = Return rs1 s1 →
     builds (Krfix.build cfg2 fuel2) variants (new_instance g2) = Return rs2 s2 →
     rs1 = rs2 ∧ s1 = s2).
Proof.
  intros <- <-. split; intros Hrun1 Hrun2.
  - assert (Hagree : builds (Krc.build cfg1 fuel1) variants (new_instance g1)
                     = builds (Krc.build cfg1 fuel2) variants (new_instance g1)).
    { apply (stable_agree (λ fuel, builds (Krc.build cfg1 fuel) variants)).
      - apply (builds_stable (Krc.build cfg1)), krc_build_stable.
      - by rewrite Hrun1.
      - by rewrite Hrun2. }
    rewrite Hrun1, Hrun2 in Hagree. by injection Hagree as -> ->.
  - assert (Hagree : builds (Krfix.build cfg1 fuel1) variants (new_instance g1)
                     = builds (Krfix.build cfg1 fuel2) variants (new_instance g1)).
    { apply (stable_agree (λ fuel, builds (Krfix.build cfg1 fuel) variants)).
      - apply (builds_stable (Krfix.build cfg1)), krfix_build_stable.
      - by rewrite Hrun1.
      - by rewrite Hrun2. }
    rewrite Hrun1, Hrun2 in Hagree. by injection Hagree as -> ->.
Qed.

Lemma builds_deterministic_witness :
  ∃ rs1 rs2 s1 s2,
    builds (Krc.build cfg_random 5) ["one-step"; "concatenation"] instance_42
    = Return rs1 s1
    ∧ builds (Krc.build cfg_random 8) ["one-step"; "concatenation"] instance_42
      = Return rs2 s2
    ∧ rs1 = rs2 ∧ s1 = s2.
Proof.
  destruct (builds (Krc.build cfg_random 5) ["one-step"; "concatenation"]
              instance_42) as [rs1 s1 | e s |] eqn:Hrun1;
    [| apply (f_equal returned_value) in Hrun1; vm_compute in Hrun1;
       discriminate..].
  destruct (builds (Krc.build cfg_random 8) ["one-step"; "concatenation"]
              instance_42) as [rs2 s2 | e s |] eqn:Hrun2;
    [| apply (f_equal returned_value) in Hrun2; vm_compute in Hrun2;
       discriminate..].
  exists rs1, rs2, s1, s2. split_and!; [reflexivity | reflexivity | |];
    apply (proj1 (builds_deterministic cfg_random cfg_random 42%N 42%N
                    ["one-step"; "concatenation"] 5 8 rs1 rs2 s1 s2
                    eq_refl eq_refl) Hrun1 Hrun2).
Defined.

(** ** The argument lists of the jobs *)

Module GenerateDataFacts.
Import GenerateData.

Lemma add_items_spec (items : dict) (args : list string) :
  add_items items args = args ++ concat (map item_arguments items).
Proof.
  revert args. induction items as [|[key value] items IH]; intros args; cbn.
  - by rewrite app_nil_r.
  - destruct value; rewrite IH; unfold item_arguments at 2; cbn [snd fst];
      by rewrite <- ?app_assoc.
Qed.

Lemma tasks_from_spec (configs : list job) result made result' made' :
  tasks_from configs result made = inr (result', made') →
  result' = result ++ map spec_arguments configs.
Proof.
  revert result made.
  induction configs as [|[experiment config] configs IH]; intros result made; cbn.
  - intros [= <- <-]. by rewrite app_nil_r.
  - destruct (output_directory config) as [e | dir]; [done |].
    intros Hrun. apply IH in Hrun as ->.
    rewrite <- app_assoc. cbn. f_equal. f_equal.
    unfold spec_arguments. cbn [fst snd]. by rewrite add_items_spec.
Qed.

End GenerateDataFacts.

(** C8. Whenever [tasks] returns, the argument list of each job is the
    task kind followed by the pair [--<key>], [str(value)] of every field
    whose value is not null, in key order, null-valued fields being left
    out. [tasks] returns on the jobs enumerated for the three commands, and
    no one-step job of [krc] has a [--max_position_combinations] flag. *)
Theorem tasks_arguments :
  (∀ configs result made,
     GenerateData.tasks configs = inr (result, made) →
     result = map GenerateData.spec_arguments configs)
  ∧ GenerateData.arguments_of GenerateData.krc_jobs
    = Some (map GenerateData.spec_arguments GenerateData.krc_jobs)
  ∧ GenerateData.arguments_of GenerateData.krfix_jobs
    = Some (map GenerateData.spec_arguments GenerateData.krfix_jobs)
  ∧ GenerateData.arguments_of GenerateData.krfix_one_hop_jobs
    = Some (map GenerateData.spec_arguments GenerateData.krfix_one_hop_jobs)
  ∧ Forall (λ j, GenerateData.is_one_step j = true →
                 GenerateData.get j.2 "max_position_combinations"
                 = Some GenerateData.PNone
                 ∧ "--max_position_combinations" ∉ GenerateData.spec_arguments j)
      GenerateData.krc_jobs.
Proof.
  split_and!.
  - intros configs result made Hrun.
    apply GenerateDataFacts.tasks_from_spec in Hrun. exact Hrun.
  - vm_compute. reflexivity.
  - vm_compute. reflexivity.
  - vm_compute. reflexivity.
  - apply Forall_forall. intros j Hj Hone.
    assert (Hcheck : forallb (λ j, implb (GenerateData.is_one_step j)
                      (bool_decide (GenerateData.get j.2 "max_position_combinations"
                                    = Some GenerateData.PNone)
                       && bool_decide ("--max_position_combinations"
                                       ∉ GenerateData.spec_arguments j)))
                      GenerateData.krc_jobs = true)
      by (vm_compute; reflexivity).
    rewrite forallb_forall in Hcheck. apply list_elem_of_In in Hj.
    specialize (Hcheck j Hj). rewrite Hone in Hcheck. cbn in Hcheck.
    apply andb_true_iff in Hcheck as [H1 H2].
    by apply bool_decide_eq_true in H1, H2.
Qed.

Lemma tasks_arguments_witness :
  ∃ result made,
    GenerateData.tasks (GenerateData.generate_krc 2000) = inr (result, made)
    ∧ result = map GenerateData.spec_arguments (GenerateData.generate_krc 2000).
Proof.
  destruct (GenerateData.tasks (GenerateData.generate_krc 2000))
    as [e | [result made]] eqn:Hrun.
  - apply (f_equal (λ o, match o with inl _ => false | inr _ => true end)) in Hrun.
    vm_compute in Hrun. discriminate.
  - exists result, made. split; [reflexivity |].
    apply (proj1 tasks_arguments _ _ _ Hrun).
Defined.

(** ** Characters of the generated strings *)

Lemma is_alnum_not_underscore c : is_alnum c = true → c ≠ underscore.
Proof. intros Hc ->. vm_compute in Hc. discriminate. Qed.

Lemma is_alnum_not_dquote c : is_alnum c = true → c ≠ dquote.
Proof. intros Hc ->. vm_compute in Hc. discriminate. Qed.

Lemma before_underscore_alnum (s : string) :
  all_chars is_alnum s = true → before_underscore s = s.
Proof.
  induction s as [|c s IH]; cbn; [done |].
  intros [Hc Hs]%andb_true_iff.
  rewrite decide_False by (by apply is_alnum_not_underscore).
  by rewrite IH.
Qed.

Lemma before_underscore_append (s t : string) :
  all_chars is_alnum s = true → before_underscore (s +:+ "_" +:+ t) = s.
Proof.
  change ("_" +:+ t) with (String underscore t).
  induction s as [|c s IH]; cbn; [by rewrite decide_True |].
  intros [Hc Hs]%andb_true_iff.
  rewrite decide_False by (by apply is_alnum_not_underscore).
  by rewrite IH.
Qed.

Lemma prefix_DQ_cons c (s : string) :
  String.prefix DQ (String c s) = bool_decide (dquote = c).
Proof.
  unfold DQ. cbn. destruct (ascii_dec dquote c) as [-> | Hne].
  - rewrite bool_decide_eq_true_2 by done. by destruct s.
  - by rewrite bool_decide_eq_false_2.
Qed.

Lemma prefix_DQ_alnum (s t : string) :
  all_chars is_alnum s = true → String.prefix DQ (s +:+ "_" +:+ t) = false.
Proof.
  destruct s as [|c s]; [done |]. cbn [all_chars].
  intros [Hc _]%andb_true_iff.
  change (String c s +:+ "_" +:+ t) with (String c (s +:+ "_" +:+ t)).
  rewrite prefix_DQ_cons. apply bool_decide_eq_false_2.
  intros Heq. by apply (is_alnum_not_dquote c).
Qed.

Lemma prefix_DQ_alnum_word (s : string) :
  all_chars is_alnum s = true → String.prefix DQ s = false.
Proof.
  destruct s as [|c s]; [done |]. cbn [all_chars].
  intros [Hc _]%andb_true_iff.
  rewrite prefix_DQ_cons. apply bool_decide_eq_false_2.
  intros Heq. by apply (is_alnum_not_dquote c).
Qed.

Lemma prefix_DQ_quoted (s : string) : String.prefix DQ (DQ +:+ s) = true.
Proof. apply prefix_append. Qed.

(** The key of a joined random name is its first part. *)
Lemma join_first_part (p : string) (rest : list string) :
  all_chars is_alnum p = true →
  String.prefix DQ (join "_" (p :: rest)) = false
  ∧ before_underscore (join "_" (p :: rest)) = p.
Proof.
  intros Hp. destruct rest as [|q rest].
  - cbn [join]. split; [by apply prefix_DQ_alnum_word
                       | by apply before_underscore_alnum].
  - change (join "_" (p :: q :: rest)) with (p +:+ "_" +:+ join "_" (q :: rest)).
    split; [by apply prefix_DQ_alnum | by apply before_underscore_append].
Qed.

Section GeneratedStrings.
Context {G : Type} `{RandomSource G}.

Lemma is_lower_alnum c : is_lower c = true → is_alnum c = true.
Proof. unfold is_alnum. by intros ->. Qed.

Lemma is_digit_alnum c : is_digit c = true → is_alnum c = true.
Proof. unfold is_alnum. intros ->. apply orb_true_r. Qed.

Lemma random_string_alnum length (g : G) :
  all_chars is_alnum (random_string length g).1 = true.
Proof.
  eapply all_chars_impl; [apply is_lower_alnum | apply random_string_spec].
Qed.

Lemma random_integer_alnum length (g : G) :
  all_chars is_alnum (random_integer length g).1 = true.
Proof.
  eapply all_chars_impl; [apply is_digit_alnum | apply random_integer_spec].
Qed.

Lemma generator_of_alnum n length (g : G) :
  all_chars is_alnum (generator_of n length g).1 = true.
Proof. destruct n; [apply random_string_alnum | apply random_integer_alnum]. Qed.

Lemma part_generator_spec (i : nat) (self : instance G) :
  ensures (part_generator i) self
    (λ fn self', (fn = random_string ∨ fn = random_integer)
                 ∧ used_values self' = used_values self)
    (λ _, False).
Proof.
  destruct i as [|[|i]]; cbn [part_generator].
  - apply ensures_ret. auto.
  - apply ensures_ret. auto.
  - apply ensures_draw. intros fn g Hdraw.
    destruct (randbelow (rng self) 2) as [[|k] g']; injection Hdraw as <- <-; auto.
Qed.

(** The parts of a random name: [count] new strings of letters or digits,
    pairwise distinct, none of them in the registry before, all of them in
    it afterwards. *)
Lemma name_parts_spec fuel length count i parts (self : instance G) :
  ensures (name_parts fuel length count i parts) self
    (λ ps self', ∃ new, ps = parts ++ new
       ∧ List.length new = count
       ∧ Forall (λ p, all_chars is_alnum p = true) new
       ∧ NoDup new
       ∧ Forall (λ p, p ∉ used_values self) new
       ∧ used_values self' = list_to_set new ∪ used_values self)
    (λ _, False).
Proof.
  revert i parts self.
  induction count as [|count IH]; intros i parts self; cbn [name_parts].
  - apply ensures_ret. exists []. rewrite app_nil_r.
    split_and!; [done | done | constructor | constructor | constructor |].
    set_solver.
  - apply ensures_bind.
    eapply ensures_impl; [apply part_generator_spec | | done].
    intros fn self1 [Hfn Hused1]. apply ensures_bind.
    eapply ensures_impl; [apply uniquify_spec | | done].
    intros p self2 (Hfresh & Hused2 & g & ->).
    eapply ensures_impl; [apply IH | | done].
    intros ps self3 (new & -> & Hlen & Halnum & Hnodup & Hnew & Hused3).
    rewrite Hused1 in Hfresh, Hused2.
    exists ((fn length g).1 :: new). split_and!.
    + by rewrite <- app_assoc.
    + cbn. by rewrite Hlen.
    + constructor; [| done].
      destruct Hfn as [-> | ->];
        [apply random_string_alnum | apply random_integer_alnum].
    + constructor; [| done]. intros Hin.
      rewrite Forall_forall in Hnew. apply (Hnew _ Hin).
      rewrite Hused2. set_solver.
    + constructor; [done |]. eapply Forall_impl; [exact Hnew |].
      intros q Hq. cbn in Hq. rewrite Hused2 in Hq. set_solver.
    + rewrite Hused3, Hused2. cbn [list_to_set]. set_solver.
Qed.

Lemma randint_spec (a b : Z) (self : instance G) :
  ensures (randint a b) self
    (λ n self', a ≤ n ∧ used_values self' = used_values self)
    (λ self', used_values self' = used_values self).
Proof.
  unfold ensures, randint. destruct (0 <? b + 1 - a); [| done].
  unfold draw. destruct (randbelow _ _) as [k g']. cbn. split; [lia | done].
Qed.

Lemma random_name_parts_spec cfg fuel (self : instance G) :
  ensures (random_name_parts cfg fuel) self
    (λ ps self',
       (Z.to_nat (cfg_function_name_min_parts cfg) ≤ List.length ps)%nat
       ∧ Forall (λ p, all_chars is_alnum p = true) ps
       ∧ NoDup ps
       ∧ Forall (λ p, p ∉ used_values self) ps
       ∧ used_values self' = list_to_set ps ∪ used_values self)
    (λ self', used_values self' = used_values self).
Proof.
  unfold random_name_parts. apply ensures_bind.
  eapply ensures_impl; [apply randint_spec | | done].
  intros n self1 [Hn Hused1].
  eapply ensures_impl; [apply name_parts_spec | | done].
  intros ps self2 (new & -> & Hlen & Halnum & Hnodup & Hnew & Hused2).
  rewrite Hused1 in Hnew, Hused2. cbn [app].
  split_and!; [lia | done..].
Qed.

End GeneratedStrings.

(** ** The registry over a sequence of calls *)

Section RegistryFacts.
Context {G : Type} `{RandomSource G}.

Lemma registry_key_quoted cfg (s : string) :
  cfg_return_type cfg = "string" → registry_key cfg (DQ +:+ s +:+ DQ) = s.
Proof.
  intros Htype. unfold registry_key.
  rewrite bool_decide_eq_true_2, prefix_DQ_quoted by done.
  apply slice_quoted.
Qed.

Lemma registry_key_alnum cfg (v : string) :
  all_chars is_alnum v = true → registry_key cfg v = v.
Proof.
  intros Hv. unfold registry_key.
  rewrite prefix_DQ_alnum_word, andb_false_r by done.
  case_decide; [by apply before_underscore_alnum | done].
Qed.

Lemma registry_key_join cfg (p : string) (rest : list string) :
  cfg_function_name cfg = "random" → all_chars is_alnum p = true →
  registry_key cfg (join "_" (p :: rest)) = p.
Proof.
  intros Hscheme Hp. unfold registry_key.
  destruct (join_first_part p rest Hp) as [-> ->].
  by rewrite andb_false_r, decide_True.
Qed.

Lemma registry_key_plain cfg (v : string) :
  cfg_function_name cfg ≠ "random" →
  (cfg_return_type cfg = "string" → String.prefix DQ v = false) →
  registry_key cfg v = v.
Proof.
  intros Hscheme Hplain. unfold registry_key. rewrite decide_False by done.
  destruct (bool_decide_reflect (cfg_return_type cfg = "string")) as [Ht | Ht];
    [by rewrite Hplain | done].
Qed.

Lemma prefix_DQ_candidate (canonical : string) (index : Z) :
  plain_name canonical = true →
  String.prefix DQ (candidate canonical index) = false.
Proof.
  unfold plain_name. intros Hplain%negb_true_iff.
  unfold candidate. case_decide; [done |].
  destruct canonical as [|c canonical]; [done |].
  change (String c canonical +:+ "_" +:+ str_int index)
    with (String c (canonical +:+ "_" +:+ str_int index)).
  by rewrite prefix_DQ_cons in *.
Qed.

Lemma uniquify_grows fuel (generator : G → string * G) :
  grows (uniquify fuel generator).
Proof.
  intros self. eapply ensures_impl; [apply uniquify_spec | | done].
  intros v self' (_ & -> & _). set_solver.
Qed.

Lemma value_grows cfg fuel length :
  grows (value cfg fuel length : M G string).
Proof.
  intros self. unfold value. repeat case_decide.
  - apply ensures_bind. eapply ensures_impl; [apply uniquify_grows | | done].
    intros v self' Hsub. by apply ensures_ret.
  - apply uniquify_grows.
  - by apply ensures_raise.
Qed.

Lemma function_name_grows cfg fuel canonical :
  grows (function_name cfg fuel canonical : M G string).
Proof.
  intros self. unfold function_name. repeat case_decide.
  - apply ensures_bind.
    eapply ensures_impl; [apply random_name_parts_spec | |].
    + intros ps self' (_ & _ & _ & _ & Hused). apply ensures_ret.
      rewrite Hused. set_solver.
    + intros self' Hused. by rewrite Hused.
  - eapply ensures_impl; [apply fixed_name_spec | | done].
    intros v self' (_ & -> & _). set_solver.
  - by apply ensures_raise.
Qed.

Lemma do_call_grows cfg fuel c : grows (do_call cfg fuel c : M G string).
Proof.
  destruct c; cbn [do_call];
    [apply value_grows | apply function_name_grows | apply uniquify_grows].
Qed.

(** A returned string has a key that was not in the registry before the
    call and is in it afterwards. *)
Lemma do_call_key cfg fuel c (self : instance G) :
  (cfg_function_name cfg = "random" → 1 ≤ cfg_function_name_min_parts cfg) →
  (cfg_return_type cfg = "string" → cfg_function_name cfg = "fixed" →
   plain_call c = true) →
  ensures (do_call cfg fuel c) self
    (λ v self', (registry_key cfg v ∉ used_values self)
                ∧ registry_key cfg v ∈ used_values self')
    (λ _, True).
Proof.
  intros Hparts Hplain. destruct c as [length | canonical | n length];
    cbn [do_call].
  - destruct (decide (cfg_return_type cfg = "string")) as [Htype | Hnstr].
    { eapply ensures_impl; [by apply value_string_spec | | done].
      intros v self' (s & -> & _ & Hfresh & ->).
      rewrite registry_key_quoted by done. set_solver. }
    destruct (decide (cfg_return_type cfg = "integer")) as [Htype | Hnint].
    { eapply ensures_impl; [by apply value_integer_spec | | done].
      intros v self' (_ & Hdigits & _ & Hfresh & ->).
      rewrite registry_key_alnum
        by (eapply all_chars_impl; [apply is_digit_alnum | done]).
      set_solver. }
    unfold value. rewrite !decide_False by done. by apply ensures_raise.
  - unfold function_name.
    destruct (decide (cfg_function_name cfg = "random")) as [Hscheme | Hnrand].
    { apply ensures_bind.
      eapply ensures_impl; [apply random_name_parts_spec | | done].
      intros ps self' (Hlen & Halnum & _ & Hnew & Hused). apply ensures_ret.
      rewrite Hused. specialize (Hparts Hscheme).
      destruct ps as [|p rest]; [cbn in Hlen; lia |].
      apply Forall_cons in Halnum as [Hp _]. apply Forall_cons in Hnew as [Hfresh _].
      rewrite registry_key_join by done. cbn [list_to_set]. set_solver. }
    destruct (decide (cfg_function_name cfg = "fixed")) as [Hscheme | Hnfix];
      [| by apply ensures_raise].
    eapply ensures_impl; [apply fixed_name_spec | | done].
    intros v self' (Hfresh & -> & _ & k & ->).
    rewrite registry_key_plain; [set_solver | done |].
    intros Htype. apply prefix_DQ_candidate. by apply Hplain.
  - eapply ensures_impl; [apply uniquify_spec | | done].
    intros v self' (Hfresh & -> & g & ->).
    rewrite registry_key_alnum by apply generator_of_alnum. set_solver.
Qed.

Lemma returned_grows cfg fuel calls (self final : instance G) :
  (returned cfg fuel calls self).2 = Some final →
  used_values self ⊆ used_values final.
Proof.
  revert self. induction calls as [|c calls IH]; intros self; cbn [returned].
  - by intros [= ->].
  - pose proof (do_call_grows cfg fuel c self) as Hgrow. unfold ensures in Hgrow.
    destruct (do_call cfg fuel c self) as [v self' | e self' |]; [| | done].
    + destruct (returned cfg fuel calls self') as [vs final'] eqn:Hrest.
      cbn. intros ->. specialize (IH self'). rewrite Hrest in IH.
      etrans; [exact Hgrow | by apply IH].
    + intros Hfinal. etrans; [exact Hgrow | by apply IH].
Qed.

Lemma returned_keys cfg fuel calls (self : instance G) :
  (cfg_function_name cfg = "random" → 1 ≤ cfg_function_name_min_parts cfg) →
  (cfg_return_type cfg = "string" → cfg_function_name cfg = "fixed" →
   Forall (λ c, plain_call c = true) calls) →
  NoDup (registry_key cfg <$> (returned cfg fuel calls self).1)
  ∧ Forall (λ o, registry_key cfg o ∉ used_values self)
      (returned cfg fuel calls self).1.
Proof.
  intros Hparts Hplain. revert self.
  induction calls as [|c calls IH]; intros self; cbn [returned].
  - split; constructor.
  - assert (Hc : cfg_return_type cfg = "string" →
                 cfg_function_name cfg = "fixed" → plain_call c = true).
    { intros Ht Hs. specialize (Hplain Ht Hs). by apply Forall_cons in Hplain as [? _]. }
    assert (Hcalls : cfg_return_type cfg = "string" →
                     cfg_function_name cfg = "fixed" →
                     Forall (λ c, plain_call c = true) calls).
    { intros Ht Hs. specialize (Hplain Ht Hs). by apply Forall_cons in Hplain as [_ ?]. }
    specialize (IH Hcalls).
    pose proof (do_call_key cfg fuel c self Hparts Hc) as Hkey.
    pose proof (do_call_grows cfg fuel c self) as Hgrow.
    unfold ensures in Hkey, Hgrow.
    destruct (do_call cfg fuel c self) as [v self' | e self' |].
    + destruct Hkey as [Hfresh Hin]. destruct (IH self') as [Hnodup Hrest].
      destruct (returned cfg fuel calls self') as [vs final']. cbn in *.
      split.
      * constructor; [| done]. intros (o & Heq & Ho)%list_elem_of_fmap.
        rewrite Forall_forall in Hrest. apply (Hrest o Ho). by rewrite <- Heq.
      * constructor; [done |]. eapply Forall_impl; [exact Hrest |].
        intros o Ho. cbn in Ho. set_solver.
    + destruct (IH self') as [Hnodup Hrest]. split; [done |].
      eapply Forall_impl; [exact Hrest |]. intros o Ho. cbn in Ho. set_solver.
    + split; constructor.
Qed.

End RegistryFacts.

(** C1, as the code has it. On one instance, over any sequence of calls to
    [value()], [function_name()] and [uniquify()] (with the generators of
    the class), the registry only grows; and the returned values and
    identifiers are pairwise distinct provided that random names have at
    least one part ([function_name_min_parts >= 1]) and that, with string
    values and the fixed scheme, no canonical name begins with a double
    quote. *)
Theorem returned_values_distinct {G : Type} `{RandomSource G}
    (cfg : configuration) (fuel : nat) (calls : list call) (self : instance G) :
  ((cfg_function_name cfg = "random" → 1 ≤ cfg_function_name_min_parts cfg) →
   (cfg_return_type cfg = "string" → cfg_function_name cfg = "fixed" →
    Forall (λ c, plain_call c = true) calls) →
   NoDup (returned cfg fuel calls self).1)
  ∧ (∀ final, (returned cfg fuel calls self).2 = Some final →
              used_values self ⊆ used_values final)
  ∧ (∀ c v self', do_call cfg fuel c self = Return v self' →
                  used_values self ⊆ used_values self')
  ∧ (∀ c e self', do_call cfg fuel c self = Raise e self' →
                  used_values self ⊆ used_values self').
Proof.
  split_and!.
  - intros Hparts Hplain. eapply NoDup_fmap_1. by apply returned_keys.
  - intros final. apply returned_grows.
  - intros c v self' Hrun.
    apply (ensures_Return _ _ _ _ _ _ (do_call_grows cfg fuel c self) Hrun).
  - intros c e self' Hrun.
    apply (ensures_Raise _ _ _ _ _ _ (do_call_grows cfg fuel c self) Hrun).
Qed.

Lemma returned_values_distinct_witness :
  (returned cfg_random 5
     [CallValue None; CallFunctionName "key_function"; CallValue (Some 3);
      CallUniquify RandomInteger 4; CallFunctionName "key_function"]
     instance_42).1
  = [DQ +:+ "xdhhybbgtz" +:+ DQ; "ogkz_6331_xsme"; DQ +:+ "gfn" +:+ DQ; "3599";
     "znaf"]
  ∧ NoDup (returned cfg_random 5
     [CallValue None; CallFunctionName "key_function"; CallValue (Some 3);
      CallUniquify RandomInteger 4; CallFunctionName "key_function"]
     instance_42).1.
Proof.
  split; [vm_compute; reflexivity |].
  apply (proj1 (returned_values_distinct cfg_random 5 _ instance_42));
    [intros _; cbn; lia | discriminate].
Defined.

(** C1 as the specification words it does not hold: with random names of
    no part, [function_name] returns the empty string each time it is
    called. *)
Lemma returned_values_distinct_counterexample :
  (returned cfg_no_parts 5
     [CallFunctionName "key_function"; CallFunctionName "key_function"]
     instance_42).1 = [EmptyString; EmptyString]
  ∧ ¬ NoDup (returned cfg_no_parts 5
               [CallFunctionName "key_function"; CallFunctionName "key_function"]
               instance_42).1.
Proof.
  assert (Hrun : (returned cfg_no_parts 5
             [CallFunctionName "key_function"; CallFunctionName "key_function"]
             instance_42).1 = [EmptyString; EmptyString])
    by (vm_compute; reflexivity).
  split; [exact Hrun |].
  rewrite Hrun. intros [Hnotin _]%NoDup_cons. apply Hnotin. by left.
Qed.

(** Why canonical names must not be quoted literals: with string values
    and the fixed scheme, a canonical name that is itself a quoted value is
    returned as it is, although [value()] returned the same string before,
    because the registry holds only the inner text of that value. *)
Remark quoted_canonical_name_collides :
  (returned cfg_fixed 5
     [CallValue None; CallFunctionName (DQ +:+ "xdhhybbgtz" +:+ DQ)]
     instance_42).1
  = [DQ +:+ "xdhhybbgtz" +:+ DQ; DQ +:+ "xdhhybbgtz" +:+ DQ].
Proof. vm_compute. reflexivity. Qed.

(** ** What the calls register *)

Section RegisteredFacts.
Context {G : Type} `{RandomSource G}.

Lemma quoted_neq_inner (s : string) : DQ +:+ s +:+ DQ ≠ s.
Proof.
  intros Heq. apply (f_equal String.length) in Heq.
  rewrite !length_append in Heq. cbn in Heq. lia.
Qed.

(** The texts a call registers are new, pairwise distinct, and in the
    registry afterwards. *)
Lemma registered_by_spec cfg fuel c (self : instance G) :
  ensures (registered_by cfg fuel c) self
    (λ ts self', NoDup ts
                 ∧ Forall (λ t, t ∉ used_values self) ts
                 ∧ Forall (λ t, t ∈ used_values self') ts
                 ∧ used_values self ⊆ used_values self')
    (λ self', used_values self ⊆ used_values self').
Proof.
  destruct c as [length | canonical | n length]; cbn [registered_by].
  - apply ensures_bind.
    destruct (decide (cfg_return_type cfg = "string")) as [Htype | Hnstr].
    { eapply ensures_impl; [by apply value_string_spec | | done].
      intros v self' (s & -> & _ & Hfresh & Hused). apply ensures_ret.
      rewrite slice_quoted, Hused.
      split_and!; [apply NoDup_singleton | | | set_solver];
        apply Forall_singleton; set_solver. }
    destruct (decide (cfg_return_type cfg = "integer")) as [Htype | Hnint].
    { eapply ensures_impl; [by apply value_integer_spec | | done].
      intros v self' (_ & _ & _ & Hfresh & Hused). apply ensures_ret.
      rewrite Hused.
      split_and!; [apply NoDup_singleton | | | set_solver];
        apply Forall_singleton; set_solver. }
    unfold value. rewrite !decide_False by done. by apply ensures_raise.
  - destruct (decide (cfg_function_name cfg = "random")) as [Hscheme | Hnrand].
    { eapply ensures_impl; [apply random_name_parts_spec | |].
      - intros ps self' (_ & _ & Hnodup & Hnew & Hused). rewrite Hused.
        split_and!; [done | done | | set_solver].
        apply Forall_forall. intros p Hp. set_solver.
      - intros self' Hused. by rewrite Hused. }
    apply ensures_bind. unfold function_name. rewrite decide_False by done.
    destruct (decide (cfg_function_name cfg = "fixed")) as [Hscheme | Hnfix];
      [| by apply ensures_raise].
    eapply ensures_impl; [apply fixed_name_spec | | done].
    intros v self' (Hfresh & Hused & _). apply ensures_ret. rewrite Hused.
    split_and!; [apply NoDup_singleton | | | set_solver];
      apply Forall_singleton; set_solver.
  - apply ensures_bind.
    eapply ensures_impl; [apply uniquify_spec | | done].
    intros v self' (Hfresh & Hused & _). apply ensures_ret. rewrite Hused.
    split_and!; [apply NoDup_singleton | | | set_solver];
      apply Forall_singleton; set_solver.
Qed.

Lemma registered_distinct cfg fuel calls (self : instance G) :
  NoDup (registered cfg fuel calls self).1
  ∧ Forall (λ t, t ∉ used_values self) (registered cfg fuel calls self).1.
Proof.
  revert self. induction calls as [|c calls IH]; intros self; cbn [registered].
  - split; constructor.
  - pose proof (registered_by_spec cfg fuel c self) as Hspec.
    unfold ensures in Hspec.
    destruct (registered_by cfg fuel c self) as [ts self' | e self' |].
    + destruct Hspec as (Hnodup & Hnew & Hin & Hsub).
      destruct (IH self') as [Hrest Hfresh].
      destruct (registered cfg fuel calls self') as [rest final]. cbn in *.
      rewrite Forall_forall in Hin, Hfresh, Hnew. split.
      * apply NoDup_app. split_and!; [done | | done].
        intros t Ht Ht'. apply (Hfresh t Ht'). by apply Hin.
      * apply Forall_app. split; apply Forall_forall; [done |].
        intros t Ht Hself. apply (Hfresh t Ht). set_solver.
    + destruct (IH self') as [Hrest Hfresh]. split; [done |].
      eapply Forall_impl; [exact Hfresh |]. intros t Ht. cbn in Ht. set_solver.
    + split; constructor.
Qed.

Lemma registered_by_unquoted cfg fuel c (self : instance G) :
  cfg_return_type cfg = "string" →
  (cfg_function_name cfg = "fixed" → plain_call c = true) →
  unquoted (used_values self) →
  ensures (registered_by cfg fuel c) self
    (λ _ self', unquoted (used_values self'))
    (λ self', unquoted (used_values self')).
Proof.
  intros Htype Hplain Hself.
  assert (Hadd : ∀ v (used : gset string),
            String.prefix DQ v = false → used = {[v]} ∪ used_values self →
            unquoted used).
  { intros v used Hv -> x [->%elem_of_singleton | Hx]%elem_of_union;
      [done | by apply Hself]. }
  destruct c as [length | canonical | n length]; cbn [registered_by].
  - apply ensures_bind.
    eapply ensures_impl; [by apply value_string_spec | | done].
    intros v self' (s & -> & [_ Hlower] & _ & Hused). apply ensures_ret.
    apply (Hadd s); [| done]. apply prefix_DQ_alnum_word.
    eapply all_chars_impl; [apply is_lower_alnum | done].
  - destruct (decide (cfg_function_name cfg = "random")) as [Hscheme | Hnrand].
    { eapply ensures_impl; [apply random_name_parts_spec | |].
      - intros ps self' (_ & Halnum & _ & _ & Hused). rewrite Hused.
        intros x [Hx%elem_of_list_to_set | Hx]%elem_of_union; [| by apply Hself].
        rewrite Forall_forall in Halnum. by apply prefix_DQ_alnum_word, Halnum.
      - intros self' Hused. by rewrite Hused. }
    apply ensures_bind. unfold function_name. rewrite decide_False by done.
    destruct (decide (cfg_function_name cfg = "fixed")) as [Hscheme | Hnfix];
      [| by apply ensures_raise].
    eapply ensures_impl; [apply fixed_name_spec | | done].
    intros v self' (_ & Hused & _ & k & ->). apply ensures_ret.
    eapply Hadd; [| done]. apply prefix_DQ_candidate. by apply Hplain.
  - apply ensures_bind.
    eapply ensures_impl; [apply uniquify_spec | | done].
    intros v self' (_ & Hused & g & ->). apply ensures_ret.
    eapply Hadd; [| done]. apply prefix_DQ_alnum_word, generator_of_alnum.
Qed.

Lemma registered_unquoted cfg fuel calls (self final : instance G) :
  cfg_return_type cfg = "string" →
  (cfg_function_name cfg = "fixed" → Forall (λ c, plain_call c = true) calls) →
  unquoted (used_values self) →
  (registered cfg fuel calls self).2 = Some final →
  unquoted (used_values final).
Proof.
  intros Htype Hplain. revert self.
  induction calls as [|c calls IH]; intros self Hself; cbn [registered].
  - by intros [= <-].
  - assert (Hc : cfg_function_name cfg = "fixed" → plain_call c = true).
    { intros Hs. specialize (Hplain Hs). by apply Forall_cons in Hplain as [? _]. }
    assert (Hcalls : cfg_function_name cfg = "fixed" →
                     Forall (λ c, plain_call c = true) calls).
    { intros Hs. specialize (Hplain Hs). by apply Forall_cons in Hplain as [_ ?]. }
    specialize (IH Hcalls).
    pose proof (registered_by_unquoted cfg fuel c self Htype Hc Hself) as Hspec.
    unfold ensures in Hspec.
    destruct (registered_by cfg fuel c self) as [ts self' | e self' |]; [| | done].
    + specialize (IH self' Hspec).
      destruct (registered cfg fuel calls self') as [rest final']. cbn in *.
      exact IH.
    + by apply IH.
Qed.

(** [registered] follows the same instance as [returned], and what a call
    registers is read off what it returns: the inner text of a string
    value, the parts joined into a random name, the returned string
    otherwise. *)
Lemma registered_by_do_call cfg fuel c (self : instance G) :
  match do_call cfg fuel c self with
  | Return v self' =>
      ∃ ts, registered_by cfg fuel c self = Return ts self'
            ∧ match c with
              | CallValue _ =>
                  ts = [if decide (cfg_return_type cfg = "string")
                        then slice_1_m1 v else v]
              | CallFunctionName _ =>
                  if decide (cfg_function_name cfg = "random")
                  then v = join "_" ts else ts = [v]
              | CallUniquify _ _ => ts = [v]
              end
  | Raise e self' => registered_by cfg fuel c self = Raise e self'
  | OutOfFuel => registered_by cfg fuel c self = OutOfFuel
  end.
Proof.
  destruct c as [length | canonical | n length]; cbn [registered_by do_call].
  - unfold bind. destruct (value cfg fuel length self); cbn; eauto.
  - unfold function_name. case_decide.
    + unfold bind. destruct (random_name_parts cfg fuel self); cbn; eauto.
    + unfold bind. case_decide; [| done].
      destruct (fixed_name fuel canonical 0 self); cbn; eauto.
  - unfold bind. destruct (uniquify fuel (generator_of n length) self);
      cbn; eauto.
Qed.

Lemma registered_final cfg fuel calls (self : instance G) :
  (registered cfg fuel calls self).2 = (returned cfg fuel calls self).2.
Proof.
  revert self. induction calls as [|c calls IH]; intros self;
    cbn [registered returned]; [done |].
  pose proof (registered_by_do_call cfg fuel c self) as Hsame.
  destruct (do_call cfg fuel c self) as [v self' | e self' |].
  - destruct Hsame as (ts & -> & _). specialize (IH self').
    destruct (registered cfg fuel calls self'), (returned cfg fuel calls self').
    done.
  - rewrite Hsame. apply IH.
  - by rewrite Hsame.
Qed.

End RegisteredFacts.

(** ** Invariants of the registry over the task shapes *)

Section Preservation.
Context {G : Type} `{RandomSource G}.

Lemma preserves_ret {A} (I : gset string → Prop) (a : A) :
  preserves I (ret a : M G A).
Proof. by intros self Hself. Qed.

Lemma preserves_raise {A} (I : gset string → Prop) e :
  preserves I (raise e : M G A).
Proof. by intros self Hself. Qed.

Lemma preserves_bind {A B} (I : gset string → Prop) (m : M G A) (k : A → M G B) :
  preserves I m → (∀ a, preserves I (k a)) → preserves I (bind m k).
Proof.
  intros Hm Hk self Hself. apply ensures_bind.
  eapply ensures_impl; [by apply Hm | | done].
  intros a self' Hself'. by apply Hk.
Qed.

Lemma preserves_decide {A} (I : gset string → Prop) (P : Prop) `{Decision P}
    (m1 m2 : M G A) :
  preserves I m1 → preserves I m2 → preserves I (if decide P then m1 else m2).
Proof. by case_decide. Qed.

Lemma preserves_if {A} (I : gset string → Prop) (b : bool) (m1 m2 : M G A) :
  preserves I m1 → preserves I m2 → preserves I (if b then m1 else m2).
Proof. by destruct b. Qed.

Lemma unquoted_add (v : string) (used used' : gset string) :
  String.prefix DQ v = false → unquoted used → used' = {[v]} ∪ used →
  unquoted used'.
Proof.
  intros Hv Hused -> x [->%elem_of_singleton | Hx]%elem_of_union;
    [done | by apply Hused].
Qed.

Lemma uniquify_unquoted fuel n length :
  preserves unquoted (uniquify fuel (generator_of n length) : M G string).
Proof.
  intros self Hself. eapply ensures_impl; [apply uniquify_spec | | done].
  intros v self' (_ & Hused & g & ->).
  eapply unquoted_add; [| done..].
  apply prefix_DQ_alnum_word, generator_of_alnum.
Qed.

Lemma value_unquoted cfg fuel length :
  preserves unquoted (value cfg fuel length : M G string).
Proof.
  unfold value. apply preserves_decide; [| apply preserves_decide].
  - apply preserves_bind; [| intros s; apply preserves_ret].
    apply (uniquify_unquoted fuel RandomString).
  - apply (uniquify_unquoted fuel RandomInteger).
  - apply preserves_raise.
Qed.

Lemma function_name_unquoted cfg fuel canonical :
  (cfg_function_name cfg = "fixed" → plain_name canonical = true) →
  preserves unquoted (function_name cfg fuel canonical : M G string).
Proof.
  intros Hplain. unfold function_name.
  destruct (decide (cfg_function_name cfg = "random")) as [Hscheme | Hnrand].
  { apply preserves_bind; [| intros ps; apply preserves_ret].
    intros self Hself.
    eapply ensures_impl; [apply random_name_parts_spec | |].
    - intros ps self' (_ & Halnum & _ & _ & Hused). rewrite Hused.
      intros x [Hx%elem_of_list_to_set | Hx]%elem_of_union; [| by apply Hself].
      rewrite Forall_forall in Halnum. by apply prefix_DQ_alnum_word, Halnum.
    - intros self' Hused. by rewrite Hused. }
  destruct (decide (cfg_function_name cfg = "fixed")) as [Hscheme | Hnfix];
    [| apply preserves_raise].
  intros self Hself. eapply ensures_impl; [apply fixed_name_spec | | done].
  intros v self' (_ & Hused & _ & k & ->).
  eapply unquoted_add; [| done..]. apply prefix_DQ_candidate. by apply Hplain.
Qed.

Ltac preserves_shape :=
  repeat first
    [ apply preserves_ret
    | apply preserves_raise
    | apply value_unquoted
    | apply function_name_unquoted; done
    | apply preserves_decide
    | apply preserves_if
    | apply preserves_bind; [| intros ?]
    | match goal with
      | |- preserves _ (match ?p with (_, _) => _ end) => destruct p
      end ].

Lemma krc_build_unquoted cfg fuel variant :
  preserves unquoted (Krc.build cfg fuel variant : M G task_result).
Proof.
  unfold Krc.build, Krc.one_step, Krc.two_step, Krc.three_step,
    Krc.concatenation.
  preserves_shape.
Qed.

Lemma krfix_build_unquoted cfg fuel variant :
  preserves unquoted (Krfix.build cfg fuel variant : M G task_result).
Proof.
  unfold Krfix.build, Krfix.three_step, Krfix.concatenation,
    Krfix.call_graph_comment.
  preserves_shape.
Qed.

Lemma builds_preserves (I : gset string → Prop)
    (build : string → M G task_result) variants :
  (∀ variant, preserves I (build variant)) →
  preserves I (builds build variants).
Proof.
  intros Hbuild. induction variants as [|v variants IH]; cbn [builds].
  - apply preserves_ret.
  - apply preserves_bind; [apply Hbuild |]. intros r.
    apply preserves_bind; [apply IH |]. intros rs. apply preserves_ret.
Qed.

End Preservation.

(** C10. With [return_type = "string"], [value()] returns a quoted string
    and adds only its inner text of lowercase letters to the registry, not
    the quoted string. So over any sequence of calls on one instance the
    inner texts of the string values and the parts of the random names (and
    whatever else the calls register) are pairwise distinct; and no entry of
    the registry of an instance begins with a double quote, so that the
    returned quoted values are never in it: after any sequence of builds,
    and after any sequence of calls whose canonical names are not quoted
    literals. *)
Theorem value_registers_inner_text {G : Type} `{RandomSource G}
    (cfg : configuration) (fuel : nat) :
  cfg_return_type cfg = "string" →
  (∀ length (self : instance G) v self',
     value cfg fuel length self = Return v self' →
     ∃ s, v = DQ +:+ s +:+ DQ
          ∧ s = slice_1_m1 v
          ∧ lowercase_word (default (cfg_return_length cfg) length) s
          ∧ (s ∉ used_values self)
          ∧ used_values self' = {[s]} ∪ used_values self
          ∧ (v ∈ used_values self' ↔ v ∈ used_values self))
  ∧ (∀ calls (self : instance G), NoDup (registered cfg fuel calls self).1)
  ∧ (∀ variants (g : G) rs final,
       builds (Krc.build cfg fuel) variants (new_instance g) = Return rs final
       ∨ builds (Krfix.build cfg fuel) variants (new_instance g) = Return rs final →
       ∀ x, x ∈ used_values final → String.prefix DQ x = false)
  ∧ (∀ calls (g : G) final,
       (cfg_function_name cfg = "fixed" →
        Forall (λ c, plain_call c = true) calls) →
       (returned cfg fuel calls (new_instance g)).2 = Some final →
       ∀ x, x ∈ used_values final → String.prefix DQ x = false).
Proof.
  intros Htype.
  assert (Hnew : ∀ g : G, unquoted (used_values (new_instance g))).
  { intros g x Hx. cbn in Hx. set_solver. }
  split_and!.
  - intros length self v self' Hrun.
    pose proof (value_string_spec cfg fuel length self Htype) as Hspec.
    apply (ensures_Return _ _ _ _ _ _ Hspec) in Hrun
      as (s & -> & Hword & Hfresh & Hused).
    exists s. split_and!; [done | by rewrite slice_quoted | done.. |].
    rewrite Hused. pose proof (quoted_neq_inner s). set_solver.
  - intros calls self. apply registered_distinct.
  - intros variants g rs final [Hrun | Hrun].
    + apply (ensures_Return _ _ _ _ _ _
               (builds_preserves unquoted (Krc.build cfg fuel) variants
                  (krc_build_unquoted cfg fuel) (new_instance g) (Hnew g)) Hrun).
    + apply (ensures_Return _ _ _ _ _ _
               (builds_preserves unquoted (Krfix.build cfg fuel) variants
                  (krfix_build_unquoted cfg fuel) (new_instance g) (Hnew g)) Hrun).
  - intros calls g final Hplain Hfinal. rewrite <- registered_final in Hfinal.
    by apply (registered_unquoted cfg fuel calls (new_instance g) final).
Qed.

Lemma value_registers_inner_text_witness :
  cfg_return_type cfg_random = "string"
  ∧ (registered cfg_random 5
       [CallValue None; CallFunctionName "key_function"; CallValue (Some 3)]
       instance_42).1
    = ["xdhhybbgtz"; "ogkz"; "6331"; "xsme"; "gfn"]
  ∧ NoDup (registered cfg_random 5
             [CallValue None; CallFunctionName "key_function"; CallValue (Some 3)]
             instance_42).1.
Proof.
  split_and!; [reflexivity | vm_compute; reflexivity |].
  apply (proj1 (proj2 (value_registers_inner_text cfg_random 5 eq_refl))).
Defined.

(** ** Characters of the function names, and the lines of a segment *)

Lemma is_digit_pretty_N_char (x : N) : is_digit (pretty_N_char x) = true.
Proof. unfold pretty_N_char. by repeat case_match. Qed.

Lemma pretty_N_go_digits (x : N) (s : string) :
  all_chars is_digit s = true → all_chars is_digit (pretty_N_go x s) = true.
Proof.
  revert s. induction (N.lt_wf_0 x) as [x _ IH]; intros s Hs.
  destruct (decide (x = 0%N)) as [-> | Hpos]; [by rewrite pretty_N_go_0 |].
  rewrite pretty_N_go_step by lia. apply IH.
  - apply N.div_lt; lia.
  - cbn [all_chars]. by rewrite is_digit_pretty_N_char.
Qed.

Lemma str_int_digits (i : Z) : 0 ≤ i → all_chars is_digit (str_int i) = true.
Proof.
  intros Hi. unfold str_int, pretty, pretty_Z.
  destruct i as [|p|p]; [done | | lia].
  unfold pretty, pretty_positive, pretty, pretty_N.
  rewrite decide_False by done. by apply pretty_N_go_digits.
Qed.

Lemma is_alnum_name_char c : is_alnum c = true → is_name_char c = true.
Proof. unfold is_name_char. by intros ->. Qed.

Lemma join_name_chars (parts : list string) :
  Forall (λ p, all_chars is_alnum p = true) parts →
  all_chars is_name_char (join "_" parts) = true.
Proof.
  induction parts as [|p [|q rest] IH]; intros Hparts; [done | |].
  - apply Forall_cons in Hparts as [Hp _]. cbn [join].
    eapply all_chars_impl; [apply is_alnum_name_char | done].
  - apply Forall_cons in Hparts as [Hp Hrest].
    change (join "_" (p :: q :: rest)) with (p +:+ "_" +:+ join "_" (q :: rest)).
    rewrite !all_chars_append, IH by done.
    rewrite (all_chars_impl is_alnum is_name_char p is_alnum_name_char Hp).
    done.
Qed.

Section NameFacts.
Context {G : Type} `{RandomSource G}.

(** A name made from a canonical name of letters, digits and underscores
    consists of letters, digits and underscores. *)
Lemma function_name_chars cfg fuel canonical (self : instance G) :
  all_chars is_name_char canonical = true →
  ensures (function_name cfg fuel canonical) self
    (λ name _, all_chars is_name_char name = true)
    (λ _, True).
Proof.
  intros Hcanonical. unfold function_name. repeat case_decide.
  - apply ensures_bind.
    eapply ensures_impl; [apply random_name_parts_spec | | done].
    intros ps self' (_ & Halnum & _). apply ensures_ret.
    by apply join_name_chars.
  - eapply ensures_impl; [apply fixed_name_spec | | done].
    intros v self' (_ & _ & _ & k & ->). unfold candidate.
    case_decide; [done |]. rewrite !all_chars_append, Hcanonical. cbn.
    eapply all_chars_impl; [| apply str_int_digits; lia].
    intros c Hc. by apply is_alnum_name_char, is_digit_alnum.
  - by apply ensures_raise.
Qed.

End NameFacts.

Lemma is_name_char_not_newline c : is_name_char c = true → c ≠ newline.
Proof. intros Hc ->. vm_compute in Hc. discriminate. Qed.

Lemma split_from_no_sep (P : ascii → bool) (sep : ascii) (cur s : string) :
  (∀ c, P c = true → c ≠ sep) → all_chars P s = true →
  GenerateData.split_from sep cur s = [cur +:+ s].
Proof.
  intros HP. revert cur. induction s as [|c s IH]; intros cur; cbn.
  - by rewrite append_nil_r.
  - intros [Hc Hs]%andb_true_iff. rewrite decide_False by (by apply HP).
    rewrite IH by done. by rewrite append_assoc.
Qed.

Lemma split_from_sep (P : ascii → bool) (sep : ascii) (cur s t : string) :
  (∀ c, P c = true → c ≠ sep) → all_chars P s = true →
  GenerateData.split_from sep cur (s +:+ String sep t)
  = (cur +:+ s) :: GenerateData.split_from sep EmptyString t.
Proof.
  intros HP. revert cur. induction s as [|c s IH]; intros cur; cbn.
  - intros _. rewrite decide_True by done. by rewrite append_nil_r.
  - intros [Hc Hs]%andb_true_iff. rewrite decide_False by (by apply HP).
    rewrite IH by done. by rewrite append_assoc.
Qed.

Lemma name_no_newline (s : string) :
  all_chars is_name_char s = true → all_chars no_newline s = true.
Proof.
  apply all_chars_impl. intros c Hc. apply bool_decide_eq_true_2.
  by apply is_name_char_not_newline.
Qed.

Lemma lines_cons (s t : string) :
  all_chars no_newline s = true → lines (s +:+ NL +:+ t) = s :: lines t.
Proof.
  intros Hs. unfold lines, GenerateData.split.
  change (NL +:+ t) with (String newline t).
  rewrite (split_from_sep no_newline) by
    (done || (intros c Hc; by apply bool_decide_eq_true_1 in Hc)).
  done.
Qed.

Lemma lines_last (s : string) : all_chars no_newline s = true → lines s = [s].
Proof.
  intros Hs. unfold lines, GenerateData.split.
  rewrite (split_from_no_sep no_newline) by
    (done || (intros c Hc; by apply bool_decide_eq_true_1 in Hc)).
  done.
Qed.

Section Returns.
Context {G : Type} `{RandomSource G}.

(** With the fixed scheme a name is returned as soon as the fuel exceeds
    the size of the registry, which then has one entry more. *)
Lemma function_name_fixed_returns cfg fuel canonical (self : instance G) :
  cfg_function_name cfg = "fixed" →
  (size (used_values self) < fuel)%nat →
  ∃ name self', function_name cfg fuel canonical self = Return name self'
                ∧ size (used_values self') = S (size (used_values self)).
Proof.
  intros Hscheme Hfuel. rewrite function_name_fixed by done.
  destruct (fixed_name_terminates fuel canonical self Hfuel)
    as (k & _ & _ & Hfree & ->).
  eexists _, _. split; [reflexivity |]. cbn.
  rewrite size_union by set_solver. by rewrite size_singleton.
Qed.

Lemma krfix_three_step_returns cfg fuel (g : G) :
  cfg_call_graph_comment_type cfg = "calls,called_by" →
  cfg_call_graph_template_variant cfg = "function_names_only" →
  cfg_function_name cfg = "fixed" →
  cfg_return_type cfg = "string" ∨ cfg_return_type cfg = "integer" →
  (4 ≤ fuel)%nat →
  ∃ r self', Krfix.build cfg fuel "three-step" (new_instance g) = Return r self'.
Proof.
  intros Htype Hvariant Hscheme Hreturn Hfuel.
  destruct fuel as [|fuel]; [lia |].
  unfold Krfix.build. rewrite decide_True by done. unfold Krfix.three_step.
  destruct (value_new_instance cfg fuel None g Hreturn) as (v & s1 & Hv & Hs1).
  destruct (function_name_fixed_returns cfg (S fuel) "key_function" s1 Hscheme)
    as (key & s2 & Hkey & Hs2); [lia |].
  destruct (function_name_fixed_returns cfg (S fuel) "value_function_1" s2 Hscheme)
    as (v1 & s3 & Hv1 & Hs3); [lia |].
  destruct (function_name_fixed_returns cfg (S fuel) "value_function_2" s3 Hscheme)
    as (v2 & s4 & Hv2 & Hs4); [lia |].
  unfold bind at 1. rewrite Hv. unfold bind at 1. rewrite Hkey.
  unfold bind at 1. rewrite Hv1. unfold bind at 1. rewrite Hv2.
  rewrite Htype.
  change (str_in "called_by" "calls,called_by") with true.
  change (str_in "calls" "calls,called_by") with true. cbv iota.
  unfold Krfix.call_graph_comment. rewrite Hvariant.
  rewrite decide_False, decide_True by done.
  by eexists _, _.
Qed.

End Returns.

(** C7. With [call_graph_comment_type = "calls,called_by"] and
    [call_graph_template_variant = "function_names_only"], whenever the krfix
    [build("three-step")] returns, the middle function's segment is exactly
    two comment lines, the calls comment [# <value_1>\n] and then the
    called_by comment [# <key>\n], immediately followed by the two lines of
    the declaration of the middle function; where a comment names several
    functions (the first and the last segment) they are joined by a comma.
    With the fixed scheme the build does return on a new instance. *)
Theorem three_step_middle_segment {G : Type} `{RandomSource G}
    (cfg : configuration) (fuel : nat) (self : instance G) :
  cfg_call_graph_comment_type cfg = "calls,called_by" →
  cfg_call_graph_template_variant cfg = "function_names_only" →
  (∀ r self', Krfix.build cfg fuel "three-step" self = Return r self' →
  ∃ literal key value_1 value_2 self1 self2 self3 first middle last,
    value cfg fuel None self = Return literal self1
    ∧ function_name cfg fuel "key_function" self1 = Return key self2
    ∧ function_name cfg fuel "value_function_1" self2 = Return value_1 self3
    ∧ function_name cfg fuel "value_function_2" self3 = Return value_2 self'
    ∧ r = ([first; middle; last], "assert " +:+ key +:+ "() ==", " " +:+ literal)
    ∧ Krfix.call_graph_comment cfg "calls" [value_1] self'
      = Return ("# " +:+ value_1 +:+ NL) self'
    ∧ Krfix.call_graph_comment cfg "called_by" [key] self'
      = Return ("# " +:+ key +:+ NL) self'
    ∧ middle = ("# " +:+ value_1 +:+ NL) +:+ ("# " +:+ key +:+ NL)
               +:+ "def " +:+ value_2 +:+ "():" +:+ NL
               +:+ "    return " +:+ value_1 +:+ "()"
    ∧ lines middle = ["# " +:+ value_1; "# " +:+ key;
                      "def " +:+ value_2 +:+ "():";
                      "    return " +:+ value_1 +:+ "()"]
    ∧ first = "# " +:+ value_2 +:+ ", " +:+ key +:+ NL
              +:+ "def " +:+ value_1 +:+ "():" +:+ NL +:+ "    return " +:+ literal
    ∧ last = "# " +:+ value_2 +:+ ", " +:+ value_1 +:+ NL
             +:+ "def " +:+ key +:+ "():" +:+ NL
             +:+ "    return " +:+ value_2 +:+ "()")
  ∧ (cfg_function_name cfg = "fixed" →
     cfg_return_type cfg = "string" ∨ cfg_return_type cfg = "integer" →
     (4 ≤ fuel)%nat →
     ∀ g : G, ∃ r self', Krfix.build cfg fuel "three-step" (new_instance g)
                       = Return r self').
Proof.
  intros Htype Hvariant. split;
    [| intros Hscheme Hreturn Hfuel g; by apply krfix_three_step_returns].
  intros r self' Hrun. unfold Krfix.build in Hrun.
  rewrite decide_True in Hrun by done. unfold Krfix.three_step in Hrun.
  apply bind_Return in Hrun as (literal & self1 & Hvalue & Hrun).
  apply bind_Return in Hrun as (key & self2 & Hkey & Hrun).
  apply bind_Return in Hrun as (value_1 & self3 & Hv1 & Hrun).
  apply bind_Return in Hrun as (value_2 & self4 & Hv2 & Hrun).
  rewrite Htype in Hrun.
  assert (Hcomment : ∀ direction names (s : instance G),
            Krfix.call_graph_comment cfg direction names s
            = Return ("# " +:+ join ", " names +:+ NL) s).
  { intros direction names s. unfold Krfix.call_graph_comment.
    rewrite Hvariant. by rewrite decide_False, decide_True by done. }
  change (str_in "called_by" "calls,called_by") with true in Hrun.
  change (str_in "calls" "calls,called_by") with true in Hrun.
  cbv iota in Hrun.
  apply bind_Return in Hrun as ([decl_1 decl_2] & self5 & Hcalled & Hrun).
  apply bind_Return in Hcalled as (c1 & s1 & Hc1 & Hcalled).
  apply bind_Return in Hcalled as (c2 & s2 & Hc2 & Hcalled).
  rewrite Hcomment in Hc1, Hc2.
  injection Hc1 as <- <-. injection Hc2 as <- <-.
  injection Hcalled as <- <- <-.
  apply bind_Return in Hrun as ([decl_key decl_2'] & self6 & Hcalls & Hrun).
  apply bind_Return in Hcalls as (c3 & s3 & Hc3 & Hcalls).
  apply bind_Return in Hcalls as (c4 & s4 & Hc4 & Hcalls).
  rewrite Hcomment in Hc3, Hc4.
  injection Hc3 as <- <-. injection Hc4 as <- <-.
  injection Hcalls as <- <- <-.
  injection Hrun as <- <-.
  assert (Hkey_chars : all_chars no_newline key = true).
  { apply name_no_newline.
    by apply (ensures_Return _ _ _ _ _ _
                (function_name_chars cfg fuel "key_function" self1 eq_refl) Hkey). }
  assert (Hv1_chars : all_chars no_newline value_1 = true).
  { apply name_no_newline.
    by apply (ensures_Return _ _ _ _ _ _
                (function_name_chars cfg fuel "value_function_1" self2 eq_refl) Hv1). }
  assert (Hv2_chars : all_chars no_newline value_2 = true).
  { apply name_no_newline.
    by apply (ensures_Return _ _ _ _ _ _
                (function_name_chars cfg fuel "value_function_2" self3 eq_refl) Hv2). }
  eexists literal, key, value_1, value_2, self1, self2, self3, _, _, _.
  split_and!; [done | done | done | done | reflexivity
               | apply Hcomment | apply Hcomment | | | |].
  - unfold def_return. cbn [join]. by rewrite !append_assoc.
  - match goal with
    | |- lines ?segment = _ =>
        replace segment
          with (("# " +:+ value_1) +:+ NL +:+ ("# " +:+ key) +:+ NL
                +:+ ("def " +:+ value_2 +:+ "():") +:+ NL
                +:+ ("    return " +:+ value_1 +:+ "()"))
          by (unfold def_return; cbn [join]; by rewrite !append_assoc)
    end.
    rewrite !lines_cons, lines_last; [done | ..];
      rewrite ?all_chars_append, ?Hkey_chars, ?Hv1_chars, ?Hv2_chars; done.
  - unfold def_return. cbn [join]. by rewrite !append_assoc.
  - unfold def_return. cbn [join]. by rewrite !append_assoc.
Qed.

Lemma three_step_middle_segment_witness :
  ∃ r self' middle,
    Krfix.build cfg_random 5 "three-step" instance_42 = Return r self'
    ∧ r.1.1 !! 1%nat = Some middle
    ∧ lines middle = ["# fnht"; "# ogkz_6331_xsme"; "def zkzn():";
                      "    return fnht()"].
Proof.
  destruct (Krfix.build cfg_random 5 "three-step" instance_42)
    as [r s | e s |] eqn:Hrun.
  - destruct (proj1 (three_step_middle_segment cfg_random 5 instance_42
                       eq_refl eq_refl) r s Hrun)
      as (literal & key & value_1 & value_2 & self1 & self2 & self3
          & first & middle & last & _ & _ & _ & _ & Hr & _ & _ & Hmiddle
          & _ & _ & _).
    exists r, s, middle. split; [reflexivity |].
    apply (f_equal returned_value) in Hrun. vm_compute in Hrun.
    injection Hrun as Hrun. rewrite Hr in Hrun |- *.
    injection Hrun as _ <- _ _ _. split; [reflexivity |].
    vm_compute. reflexivity.
  - apply (f_equal returned_value) in Hrun. vm_compute in Hrun. discriminate.
  - apply (f_equal returned_value) in Hrun. vm_compute in Hrun. discriminate.
Defined.


(** * Further properties of the code *)

(** ** The generators and [uniquify] *)

Section MoreSynthesizer.
Context {G : Type} `{RandomSource G}.

Lemma random_string_nonpositive (length : Z) (g : G) :
  length ≤ 0 → random_string length g = (EmptyString, g).
Proof.
  intros Hle. unfold random_string.
  by replace (Z.to_nat length) with 0%nat by lia.
Qed.

Lemma random_integer_nonpositive (length : Z) (g : G) :
  length ≤ 0 → random_integer length g = (EmptyString, g).
Proof.
  intros Hle. unfold random_integer.
  by replace (Z.to_nat length) with 0%nat by lia.
Qed.

(** A generator all of whose outputs are registered makes [uniquify] run
    out of any fuel. *)
Lemma uniquify_exhausted fuel (generator : G → string * G) (self : instance G) :
  (∀ g, (generator g).1 ∈ used_values self) →
  uniquify fuel generator self = OutOfFuel.
Proof.
  revert self. induction fuel as [|fuel IH]; intros self Hall; [done |].
  cbn. pose proof (Hall (rng self)) as Hin.
  destruct (generator (rng self)) as [v g']. cbn in Hin.
  rewrite decide_True by done. by apply IH.
Qed.

Lemma uniquify_run (k fuel : nat) (generator : G → string * G)
    (self : instance G) :
  (∀ j, (j < k)%nat →
     (generator (after_draws generator j (rng self))).1 ∈ used_values self) →
  (generator (after_draws generator k (rng self))).1 ∉ used_values self →
  (k < fuel)%nat →
  uniquify fuel generator self =
    Return (generator (after_draws generator k (rng self))).1
      {| rng := after_draws generator (S k) (rng self);
         used_values :=
           {[(generator (after_draws generator k (rng self))).1]}
           ∪ used_values self |}.
Proof.
  revert fuel self. induction k as [|k IH]; intros fuel self Htaken Hfree Hfuel.
  - destruct fuel as [|fuel]; [lia |]. cbn in *.
    destruct (generator (rng self)) as [v g']. cbn in *. by rewrite decide_False.
  - destruct fuel as [|fuel]; [lia |]. cbn [uniquify after_draws].
    pose proof (Htaken 0%nat ltac:(lia)) as Hin. cbn in Hin, Hfree.
    specialize (IH fuel {| rng := (generator (rng self)).2;
                           used_values := used_values self |}).
    destruct (generator (rng self)) as [v g'] eqn:Hgen. cbn in *.
    rewrite decide_True by done.
    apply IH; [| done | lia].
    intros j Hj. specialize (Htaken (S j) ltac:(lia)). cbn in Htaken.
    by rewrite Hgen in Htaken.
Qed.

End MoreSynthesizer.

(** X1. [random_string(length)] is a string of exactly [max(0, length)]
    lowercase letters; for a length that is not positive, it and
    [random_integer] return the empty string and draw nothing. *)
Theorem random_string_letters {G : Type} `{RandomSource G} (length : Z) (g : G) :
  lowercase_word length (random_string length g).1
  ∧ (length ≤ 0 →
     random_string length g = (EmptyString, g)
     ∧ random_integer length g = (EmptyString, g)).
Proof.
  split; [apply random_string_spec |].
  intros Hle. by rewrite random_string_nonpositive, random_integer_nonpositive.
Qed.

Lemma random_string_letters_witness :
  (-1 ≤ 0)
  ∧ random_string (-1) 42%N = (EmptyString, 42%N)
  ∧ (random_string 4 42%N).1 = "xdhh".
Proof.
  split; [lia |]. split; [| vm_compute; reflexivity].
  apply (proj2 (random_string_letters (-1) 42%N)). lia.
Defined.

(** X2. [uniquify] returns the first output of its generator that is not in
    the registry: if the first [k] draws are registered and the next one is
    not, then with more than [k] iterations it returns that one, adds
    exactly it to the registry and leaves the randomness source after
    [k + 1] draws. *)
Theorem uniquify_first_fresh {G : Type} `{RandomSource G}
    (k fuel : nat) (generator : G → string * G) (self : instance G) :
  (∀ j, (j < k)%nat →
     (generator (after_draws generator j (rng self))).1 ∈ used_values self) →
  (generator (after_draws generator k (rng self))).1 ∉ used_values self →
  (k < fuel)%nat →
  uniquify fuel generator self =
    Return (generator (after_draws generator k (rng self))).1
      {| rng := after_draws generator (S k) (rng self);
         used_values :=
           {[(generator (after_draws generator k (rng self))).1]}
           ∪ used_values self |}.
Proof. apply uniquify_run. Qed.

Lemma uniquify_first_fresh_witness :
  (random_string 1 42%N).1 = "x"
  ∧ ∃ self',
      uniquify 2 (random_string 1) {| rng := 42%N; used_values := {["x"]} |}
      = Return "d" self'.
Proof.
  split; [vm_compute; reflexivity |]. eexists.
  rewrite (uniquify_first_fresh 1 2 (random_string 1)
             {| rng := 42%N; used_values := {["x"]} |}).
  - vm_compute. reflexivity.
  - intros [|j] Hj; [| lia]. cbn [used_values].
    apply elem_of_singleton. vm_compute. reflexivity.
  - cbn [used_values rng]. intros Hin%elem_of_singleton.
    vm_compute in Hin. discriminate.
  - lia.
Defined.

(** ** Loops that never end *)

Section NeverReturns.
Context {G : Type} `{RandomSource G}.

(** With the empty string registered, no string of length zero can be
    made unique. *)
Lemma uniquify_empty_registered fuel n (length : Z) (self : instance G) :
  length ≤ 0 → EmptyString ∈ used_values self →
  uniquify fuel (generator_of n length) self = OutOfFuel.
Proof.
  intros Hle Hin. apply uniquify_exhausted. intros g.
  destruct n; cbn [generator_of];
    by rewrite ?random_string_nonpositive, ?random_integer_nonpositive.
Qed.

(** The first request for a string of length zero registers the empty
    string, unless it is there already and the request never ends. *)
Lemma uniquify_empty_first fuel n (length : Z) (self : instance G) :
  length ≤ 0 →
  uniquify fuel (generator_of n length) self = OutOfFuel
  ∨ ∃ self', uniquify fuel (generator_of n length) self = Return EmptyString self'
             ∧ EmptyString ∈ used_values self'.
Proof.
  intros Hle. destruct fuel as [|fuel]; [by left |].
  destruct (decide (EmptyString ∈ used_values self)) as [Hin | Hout].
  - left. by apply uniquify_empty_registered.
  - right. eexists. rewrite uniquify_fresh.
    + assert (Hgen : generator_of n length (rng self) = (EmptyString, rng self)).
      { destruct n; cbn [generator_of];
          by rewrite ?random_string_nonpositive, ?random_integer_nonpositive. }
      rewrite Hgen. cbn. split; [reflexivity | set_solver].
    + destruct n; cbn [generator_of];
        by rewrite ?random_string_nonpositive, ?random_integer_nonpositive.
Qed.

Lemma value_empty_registered cfg fuel length (self : instance G) :
  cfg_return_type cfg = "string" ∨ cfg_return_type cfg = "integer" →
  default (cfg_return_length cfg) length ≤ 0 →
  EmptyString ∈ used_values self →
  value cfg fuel length self = OutOfFuel.
Proof.
  intros [Htype | Htype] Hle Hin; unfold value.
  - rewrite decide_True by done. unfold bind.
    pose proof (uniquify_empty_registered fuel RandomString _ self Hle Hin)
      as Hrun.
    cbn [generator_of] in Hrun. by rewrite Hrun.
  - rewrite decide_False, decide_True by (by rewrite ?Htype).
    exact (uniquify_empty_registered fuel RandomInteger _ self Hle Hin).
Qed.

Lemma value_empty_first cfg fuel length (self : instance G) :
  cfg_return_type cfg = "string" →
  default (cfg_return_length cfg) length ≤ 0 →
  value cfg fuel length self = OutOfFuel
  ∨ ∃ self', value cfg fuel length self = Return (DQ +:+ DQ) self'
             ∧ EmptyString ∈ used_values self'.
Proof.
  intros Htype Hle. unfold value. rewrite decide_True by done. unfold bind.
  destruct (uniquify_empty_first fuel RandomString
              (default (cfg_return_length cfg) length) self Hle)
    as [Hrun | (self' & Hrun & Hin)]; cbn [generator_of] in Hrun; rewrite Hrun;
    [by left |].
  right. by exists self'.
Qed.

Lemma half_length_nonpositive (return_length : Z) :
  return_length ≤ 1 → return_length / 2 ≤ 0.
Proof. intros Hle. apply Z.lt_succ_r. apply Z.div_lt_upper_bound; lia. Qed.

Lemma concatenation_values_never_return cfg fuel (self : instance G)
    (k : string → string → M G task_result) :
  cfg_return_type cfg = "string" → cfg_return_length cfg ≤ 1 →
  (let* return_value_1 := value cfg fuel (Some (cfg_return_length cfg / 2)) in
   let* return_value_2 := value cfg fuel (Some (cfg_return_length cfg / 2)) in
   k return_value_1 return_value_2) self = OutOfFuel.
Proof.
  intros Htype Hlen. apply half_length_nonpositive in Hlen.
  unfold bind at 1.
  destruct (value_empty_first cfg fuel (Some (cfg_return_length cfg / 2)) self
              Htype Hlen) as [-> | (self' & -> & Hin)]; [done |].
  unfold bind at 1.
  by rewrite value_empty_registered by auto.
Qed.

(** The second part of a random name of parts of length zero cannot be
    made unique. *)
Lemma name_parts_empty fuel (length : Z) (count : nat) (self : instance G) :
  length ≤ 0 → (2 ≤ count)%nat →
  name_parts fuel length count 0 [] self = OutOfFuel.
Proof.
  intros Hle Hcount. destruct count as [|[|count]]; [lia | lia |].
  cbn [name_parts part_generator]. unfold bind at 1. cbn [ret].
  unfold bind at 1.
  destruct (uniquify_empty_first fuel RandomString length self Hle)
    as [Hrun | (self' & Hrun & Hin)]; cbn [generator_of] in Hrun; rewrite Hrun;
    [done |].
  cbn [name_parts part_generator]. unfold bind at 1. cbn [ret].
  unfold bind at 1.
  pose proof (uniquify_empty_registered fuel RandomInteger length self' Hle Hin)
    as Hrun'.
  cbn [generator_of] in Hrun'. by rewrite Hrun'.
Qed.

End NeverReturns.

(** X3. Strings of length zero can be made unique only once. With
    [return_type = "string"], [build("concatenation")] with
    [return_length <= 1] asks [value] twice for a string of
    [return_length // 2 <= 0] letters and never returns, in [krc.py] and in
    [krfix.py], on any instance and whatever the number of iterations
    allowed. *)
Theorem concatenation_short_never_returns {G : Type} `{RandomSource G}
    (cfg : configuration) (fuel : nat) (self : instance G) :
  cfg_return_type cfg = "string" →
  cfg_return_length cfg ≤ 1 →
  Krc.build cfg fuel "concatenation" self = OutOfFuel
  ∧ Krfix.build cfg fuel "concatenation" self = OutOfFuel.
Proof.
  intros Htype Hlen. split.
  - unfold Krc.build. rewrite !decide_False, decide_True by done.
    unfold Krc.concatenation. rewrite decide_True by done.
    by apply concatenation_values_never_return.
  - unfold Krfix.build. rewrite decide_False, decide_True by done.
    unfold Krfix.concatenation. rewrite decide_True by done.
    by apply concatenation_values_never_return.
Qed.

(** X4. With the random scheme, parts of length zero
    ([function_name_part_length <= 0]) and at least two parts
    ([2 <= function_name_min_parts <= function_name_max_parts]),
    [function_name] never returns: the first part registers the empty
    string and the second part is the empty string again. *)
Theorem function_name_empty_parts_never_returns {G : Type} `{RandomSource G}
    (cfg : configuration) (fuel : nat) (canonical : string) (self : instance G) :
  cfg_function_name cfg = "random" →
  cfg_function_name_part_length cfg ≤ 0 →
  2 ≤ cfg_function_name_min_parts cfg →
  cfg_function_name_min_parts cfg ≤ cfg_function_name_max_parts cfg →
  function_name cfg fuel canonical self = OutOfFuel.
Proof.
  intros Hscheme Hlen Hmin Hmax. unfold function_name.
  rewrite decide_True by done. unfold bind at 1.
  unfold random_name_parts, bind at 1.
  pose proof (randint_spec (cfg_function_name_min_parts cfg)
                (cfg_function_name_max_parts cfg) self) as Hspec.
  unfold ensures in Hspec.
  destruct (randint _ _ self) as [n self1 | e self1 |] eqn:Hrand.
  - destruct Hspec as [Hn _]. rewrite name_parts_empty by (done || lia). done.
  - exfalso. unfold randint in Hrand.
    destruct (0 <? _) eqn:Hwidth; [| lia].
    unfold draw in Hrand. by destruct (randbelow _ _).
  - exfalso. unfold randint in Hrand.
    destruct (0 <? _) eqn:Hwidth; [| done].
    unfold draw in Hrand. by destruct (randbelow _ _).
Qed.

(** ** Configuration errors *)

Section Errors.
Context {G : Type} `{RandomSource G}.

Lemma value_invalid_type cfg fuel length (self : instance G) :
  cfg_return_type cfg ≠ "string" → cfg_return_type cfg ≠ "integer" →
  value cfg fuel length self
  = Raise (ValueError "return_type must be 'string' or 'integer'") self.
Proof. intros Hs Hi. unfold value. by rewrite !decide_False. Qed.

Lemma function_name_invalid_scheme cfg fuel canonical (self : instance G) :
  cfg_function_name cfg ≠ "random" → cfg_function_name cfg ≠ "fixed" →
  function_name cfg fuel canonical self
  = Raise (ValueError "function_name must be 'fixed' or 'random'") self.
Proof. intros Hr Hf. unfold function_name. by rewrite !decide_False. Qed.

(** A value that was returned was not in the registry before. *)
Lemma value_strictly_grows cfg fuel length (self self1 : instance G) v :
  value cfg fuel length self = Return v self1 →
  used_values self ⊂ used_values self1.
Proof.
  intros Hrun.
  destruct (decide (cfg_return_type cfg = "string")) as [Htype | Hnstr].
  { pose proof (value_string_spec cfg fuel length self Htype) as Hspec.
    apply (ensures_Return _ _ _ _ _ _ Hspec) in Hrun
      as (s & _ & _ & Hfresh & ->). set_solver. }
  destruct (decide (cfg_return_type cfg = "integer")) as [Htype | Hnint].
  { pose proof (value_integer_spec cfg fuel length self Htype) as Hspec.
    apply (ensures_Return _ _ _ _ _ _ Hspec) in Hrun
      as (_ & _ & _ & Hfresh & ->). set_solver. }
  by rewrite value_invalid_type in Hrun.
Qed.

End Errors.

(** X5. Errors found before anything is drawn or registered: a
    [return_type] that is neither "string" nor "integer" makes every build
    raise and leaves the instance as it was ([ValueError] from [value()] for
    the step variants, [AssertionError] for a concatenation, which also
    refuses "integer"); so does a variant the builder does not have, and the
    builder of [krfix.py] does not have "one-step" and "two-step". *)
Theorem errors_leave_instance_untouched {G : Type} `{RandomSource G}
    (cfg : configuration) (fuel : nat) (variant : string) (self : instance G) :
  (cfg_return_type cfg ≠ "string" → cfg_return_type cfg ≠ "integer" →
   variant ∈ ["one-step"; "two-step"; "three-step"] →
   Krc.build cfg fuel variant self
   = Raise (ValueError "return_type must be 'string' or 'integer'") self
   ∧ Krfix.build cfg fuel "three-step" self
     = Raise (ValueError "return_type must be 'string' or 'integer'") self)
  ∧ (cfg_return_type cfg ≠ "string" →
     Krc.build cfg fuel "concatenation" self
     = Raise (AssertionError "concatenation task only supports strings") self
     ∧ Krfix.build cfg fuel "concatenation" self
       = Raise (AssertionError "concatenation task only supports strings") self)
  ∧ (variant ∉ ["one-step"; "two-step"; "three-step"; "concatenation"] →
     Krc.build cfg fuel variant self
     = Raise (ValueError "variant is invalid") self)
  ∧ (variant ∉ ["three-step"; "concatenation"] →
     Krfix.build cfg fuel variant self
     = Raise (ValueError "variant is invalid") self).
Proof.
  split_and!.
  - intros Hs Hi Hvariant. split.
    + unfold Krc.build, Krc.one_step, Krc.two_step, Krc.three_step.
      repeat (apply elem_of_cons in Hvariant as [-> | Hvariant]);
        [| | | by apply elem_of_nil in Hvariant];
        rewrite ?decide_False, ?decide_True by done;
        unfold bind; by rewrite value_invalid_type.
    + unfold Krfix.build, Krfix.three_step. rewrite decide_True by done.
      unfold bind at 1. by rewrite value_invalid_type.
  - intros Hs. split.
    + unfold Krc.build, Krc.concatenation.
      rewrite !decide_False by done. rewrite decide_True by done.
      by rewrite decide_False.
    + unfold Krfix.build, Krfix.concatenation.
      rewrite !decide_False by done. rewrite decide_True by done.
      by rewrite decide_False.
  - intros Hvariant. unfold Krc.build.
    rewrite !decide_False; [done | set_solver..].
  - intros Hvariant. unfold Krfix.build.
    rewrite !decide_False; [done | set_solver..].
Qed.

(** X6. A build is not atomic. With a valid [return_type] and a naming
    scheme that is neither "random" nor "fixed", a step build raises
    [ValueError] from [function_name], after [value()] has drawn and
    registered its value: the instance is left with a registry strictly
    larger than before. *)
Theorem invalid_scheme_raises_after_value {G : Type} `{RandomSource G}
    (cfg : configuration) (fuel : nat) (variant : string)
    (self self1 : instance G) (literal : string) :
  cfg_function_name cfg ≠ "random" → cfg_function_name cfg ≠ "fixed" →
  value cfg fuel None self = Return literal self1 →
  variant ∈ ["one-step"; "two-step"; "three-step"] →
  Krc.build cfg fuel variant self
  = Raise (ValueError "function_name must be 'fixed' or 'random'") self1
  ∧ Krfix.build cfg fuel "three-step" self
    = Raise (ValueError "function_name must be 'fixed' or 'random'") self1
  ∧ used_values self ⊂ used_values self1.
Proof.
  intros Hr Hf Hvalue Hvariant. split_and!.
  - unfold Krc.build, Krc.one_step, Krc.two_step, Krc.three_step.
    repeat (apply elem_of_cons in Hvariant as [-> | Hvariant]);
      [| | | by apply elem_of_nil in Hvariant];
      rewrite ?decide_False, ?decide_True by done;
      unfold bind at 1; rewrite Hvalue; unfold bind at 1;
      by rewrite function_name_invalid_scheme.
  - unfold Krfix.build, Krfix.three_step. rewrite decide_True by done.
    unfold bind at 1. rewrite Hvalue. unfold bind at 1.
    by rewrite function_name_invalid_scheme.
  - by eapply value_strictly_grows.
Qed.

Lemma concatenation_short_never_returns_witness :
  cfg_return_type cfg_short = "string"
  ∧ cfg_return_length cfg_short ≤ 1
  ∧ Krc.build cfg_short 9 "concatenation" instance_42 = OutOfFuel.
Proof.
  split; [reflexivity |]. split; [cbn; lia |].
  apply (concatenation_short_never_returns cfg_short 9 instance_42 eq_refl).
  cbn. lia.
Defined.

Lemma function_name_empty_parts_never_returns_witness :
  cfg_function_name_part_length cfg_empty_parts ≤ 0
  ∧ function_name cfg_empty_parts 9 "key_function" instance_42 = OutOfFuel.
Proof.
  split; [cbn; lia |].
  apply (function_name_empty_parts_never_returns cfg_empty_parts 9
           "key_function" instance_42 eq_refl); cbn; lia.
Defined.

Lemma errors_leave_instance_untouched_witness :
  Krc.build cfg_bad_type 5 "two-step" instance_42
  = Raise (ValueError "return_type must be 'string' or 'integer'") instance_42
  ∧ Krfix.build cfg_random 5 "one-step" instance_42
    = Raise (ValueError "variant is invalid") instance_42.
Proof.
  split.
  - apply (proj1 (errors_leave_instance_untouched cfg_bad_type 5 "two-step"
                    instance_42)); [discriminate | discriminate | set_solver].
  - apply (proj2 (proj2 (proj2 (errors_leave_instance_untouched cfg_random 5
                                  "one-step" instance_42)))).
    set_solver.
Defined.

Lemma invalid_scheme_raises_after_value_witness :
  ∃ literal self1,
    value cfg_bad_scheme 5 None instance_42 = Return literal self1
    ∧ Krc.build cfg_bad_scheme 5 "one-step" instance_42
      = Raise (ValueError "function_name must be 'fixed' or 'random'") self1
    ∧ used_values instance_42 ⊂ used_values self1.
Proof.
  destruct (value cfg_bad_scheme 5 None instance_42)
    as [literal self1 | e s |] eqn:Hvalue.
  - exists literal, self1. split; [reflexivity |].
    destruct (invalid_scheme_raises_after_value cfg_bad_scheme 5 "one-step"
                instance_42 self1 literal) as (Hraise & _ & Hgrow);
      [discriminate | discriminate | exact Hvalue | set_solver |].
    by split.
  - apply (f_equal returned_value) in Hvalue. vm_compute in Hvalue. discriminate.
  - apply (f_equal returned_value) in Hvalue. vm_compute in Hvalue. discriminate.
Defined.
